(** * query.c: a record-driven subprocess dispatcher

    A shallow embedding of [main] in [query.c]: the options and what is set
    up before the loop, the driving loop that reads raw records from
    standard input (the [next_line] label), the token loop, the record
    processor with the child branch of the [fork] and the wait loop, the
    [SIGUSR1] handler and the final [return].

    The operating system is an oracle: every attempt to open a path is
    answered by a record that says what [open], [fstat], [setenv], [fork],
    the child and the successive calls of [wait] do.  What the program does
    is recorded as a chronological trace of events, from which standard
    output, the diagnostics, the children that exist and the exit status are
    read off.

    The oracle can answer what the system can:
    - [wait] reports on any child of the process, the one forked for the
      token or another one, and the program does not tell them apart;
    - [SIGUSR1], which the child sends before it terminates when [execvp]
      fails, reaches the parent between the return of [fork] and the return
      of [wait], or stays pending when the program was executed with the
      signal blocked;
    - a child that fails in [dup2] returns from [main] and writes its copy
      of the output that the parent has buffered; what reaches the
      descriptor of standard output is computed from the trace for any way
      in which the library buffers;
    - [open] and [wait] can block for ever.

    What the model takes for granted:
    - standard input ends, at the end of the file or in a read error, and
      the writes to standard output return;
    - no signal reaches the parent but the one that its child sends at line
      260, and writes to standard output, whose failures the program
      ignores, do not fail;
    - the line buffer always ends with the null byte that [getline] and
      [getdelim] store after the bytes read. *)

From Stdlib Require Import List ZArith Bool Lia Arith.
From Stdlib Require Import Strings.Byte.
From Stdlib Require Strings.String.
From Equations Require Import Equations.
Import ListNotations.

Import String.StringSyntax.

Abbreviation string := String.string.
Local Open Scope string_scope.

(** ** Bytes, C strings and the C library *)

Definition bytes (s : string) : list byte := String.list_byte_of_string s.

(** [isspace(3)] in the "C" locale (the program never calls [setlocale]):
    space, and the control characters from horizontal tab to carriage
    return. *)
Definition isspace (c : byte) : bool :=
  match c with
  | x09 | x0a | x0b | x0c | x0d | x20 => true
  | _ => false
  end.

Definition is_nul (c : byte) : bool := Byte.eqb c x00.

(** A pointer into the line buffer is the list of the bytes from the pointer
    up to [eol], so that [cursor < eol] says that the list is not empty.
    The byte at [eol] is the terminating null byte that [getline] and
    [getdelim] always store: reading through a pointer that has reached
    [eol] yields it. *)
Definition deref (cursor : list byte) : byte := hd x00 cursor.

(** The C string that starts at a pointer: the bytes before the first null
    byte. *)
Fixpoint cstr (cursor : list byte) : list byte :=
  match cursor with
  | [] => []
  | c :: rest => if is_nul c then [] else c :: cstr rest
  end.

(** [getdelim(3)]: the bytes of the stream up to and including the first
    delimiter, or all of them when there is none, and the rest of the
    stream. *)
Fixpoint getdelim (delim : byte) (stream : list byte) : list byte * list byte :=
  match stream with
  | [] => ([], [])
  | c :: rest =>
      if Byte.eqb c delim then ([c], rest)
      else let (l, r) := getdelim delim rest in (c :: l, r)
  end.

(** Standard input: the bytes not yet read and, when the stream ends in a
    read error instead of the end of the file, its [errno]. *)
Record FILE := mkFILE { pending : list byte; failure : option Z }.

(** ** The data of query.c *)

Inductive delimation_et :=
| LINE_DELIMATION
| NULL_BYTE_DELIMATION
| ASCII_WHITESPACE_DELIMATION.

(** The locals of [main] that option parsing sets and the loop only reads;
    [command] is [argv] from [optind] on. *)
Record config := mkConfig {
  delimation : delimation_et;
  display_on_success : bool;
  redirect_stderr : bool;
  command : list (list byte)
}.

(** Where the standard error of the child goes: [errout_fd]. *)
Inductive sink := STDERR_FILENO | dev_null_fd.

Definition errout_fd (cfg : config) : sink :=
  if redirect_stderr cfg then dev_null_fd else STDERR_FILENO.

Definition EXIT_SUCCESS : Z := 0.
Definition SIGUSR1_name : string := "SIGUSR1".

(** The macros of [<sys/wait.h>] and [<sys/stat.h>] and the one [errno]
    constant the program names: they are not part of the repository and are
    parameters of the development. *)
Record platform := mkPlatform {
  WIFEXITED : Z -> bool;
  WEXITSTATUS : Z -> Z;
  WIFSIGNALED : Z -> bool;
  WTERMSIG : Z -> Z;
  S_ISDIR : Z -> bool;
  EISDIR : Z
}.

(** ** The operating system as an oracle *)

(** What [open(2)] does: it fails, it returns a descriptor, or it never
    returns, as it does on a FIFO that no process opens for writing. *)
Inductive open_ret := OpenErr (errno : Z) | OpenFd (fd : Z) | OpenBlocks.
Inductive fstat_ret := FstatErr (errno : Z) | FstatOk (st_mode : Z).

(** What [wait(2)] returns.  It reports on any child of the process, and the
    program does not compare the process it reports on with [child_pid]: the
    status is that of the child forked for the token ([WaitPid]), that of a
    child forked for an earlier token, or that of a child that the process
    had when the program was executed. *)
Inductive wait_ret :=
| WaitErr (errno : Z)
| WaitPid (status : Z)
| WaitEarlier (status : Z)
| WaitInherited (status : Z).

Definition status_of (r : wait_ret) : option Z :=
  match r with
  | WaitErr _ => None
  | WaitPid status | WaitEarlier status | WaitInherited status => Some status
  end.

(** When [SIGUSR1] reaches the parent: the child sends it before it
    terminates, so it is pending at the latest when [wait] would return. *)
Inductive delivery := BeforeClose | DuringWait.

(** The three calls of [dup2] in the child, lines 251-253. *)
Inductive dup2_call := OntoStdin | OntoStdout | OntoStderr.

(** What becomes of the child: one of the calls of [dup2] fails; [execvp]
    fails and the signal that the child sends is delivered to the parent;
    [execvp] fails and the signal stays pending, because the parent was
    executed with [SIGUSR1] blocked and [signal(2)] does not unblock it; or
    the command runs. *)
Inductive child_fate :=
| Dup2Fails (call : dup2_call) (errno : Z)
| ExecFails (errno : Z) (at_ : delivery)
| ExecFailsPending (errno : Z)
| ExecRuns.

(** The answers to the system calls made for one token.  [sys_wait] lists
    what the successive calls of [wait] return; when it is used up no child
    terminates any more and [wait] blocks for ever. *)
Record syscalls := mkSyscalls {
  sys_open : open_ret;
  sys_fstat : fstat_ret;
  sys_setenv : option Z;
  sys_fork : option Z;
  sys_child : child_fate;
  sys_wait : list wait_ret
}.

(** The answers may depend on how many paths were opened before and on the
    path. *)
Definition oracle := nat -> list byte -> syscalls.

(** ** Events and state *)

Inductive event :=
| Read (raw : list byte)                 (* getline / getdelim returned [raw] *)
| Open (path : list byte) (r : open_ret) (* open(cursor, O_RDONLY) *)
| Fstat (r : fstat_ret)
| Stderr (subject : list byte) (errno : Z) (* "subject: strerror(errno)" *)
| Setenv (value : list byte)             (* QUERY_FILENAME *)
| Fork
| ChildStderr (to : sink) (subject : list byte) (errno : Z)
| ChildKill (signal : string)            (* kill(getppid(), signal) *)
| ChildKillPending (signal : string)     (* the same, the signal blocked *)
| ChildFlush                             (* exit(3) writes the buffered output *)
| ChildExec (argv : list (list byte))
| Close
| Wait (r : wait_ret)
| Stdout (data : list byte).

Record state := mkState {
  non_fatal_errors : bool;
  opens : nat;
  trace : list event
}.

Definition initial : state :=
  {| non_fatal_errors := false; opens := 0; trace := [] |}.

Definition log (e : event) (s : state) : state :=
  {| non_fatal_errors := non_fatal_errors s;
     opens := opens s;
     trace := trace s ++ [e] |}.

Definition perror (subject : list byte) (errno : Z) (s : state) : state :=
  log (Stderr subject errno) s.

Definition flag_non_fatal (s : state) : state :=
  {| non_fatal_errors := true; opens := opens s; trace := trace s |}.

Definition tick (s : state) : state :=
  {| non_fatal_errors := non_fatal_errors s;
     opens := S (opens s);
     trace := trace s |}.

(** How control leaves the body of the token loop. *)
Inductive jump :=
| NextWord            (* goto next_word, or falling through to that label *)
| Break               (* break, or goto next_line: on to the next raw read *)
| Quit (status : Z)   (* return from main, or exit(3) *)
| Blocked.            (* open(2) or wait(2) never returns *)

(** How the program ends. *)
Inductive outcome :=
| Exit (status : Z) (s : state)
| Hang (s : state).

Definition final_state (o : outcome) : state :=
  match o with Exit _ s => s | Hang s => s end.

Definition exit_status (o : outcome) : option Z :=
  match o with Exit status _ => Some status | Hang _ => None end.

(** ** The tokenizer's pointer loops *)

(** Lines 209-213: the cursor moves over null bytes to the beginning of the
    next word; when it reaches [eol] on the way, control goes to
    [next_line], which is [None] here. *)
Fixpoint next_word_start (cursor : list byte) : option (list byte) :=
  match cursor with
  | [] => None
  | c :: rest => if is_nul c then next_word_start rest else Some cursor
  end.

(** Line 301: the cursor moves to the end of the current word, the first
    null byte at or after it. *)
Fixpoint word_end (cursor : list byte) : list byte :=
  match cursor with
  | [] => []
  | c :: rest => if is_nul c then cursor else word_end rest
  end.

(** Lines 193-203: the null bytes written into the buffer. *)
Definition prepare (cfg : config) (line : list byte) : list byte :=
  match delimation cfg with
  | LINE_DELIMATION =>
      if Byte.eqb (last line x00) x0a then removelast line ++ [x00] else line
  | ASCII_WHITESPACE_DELIMATION =>
      map (fun c => if isspace c then x00 else c) line
  | NULL_BYTE_DELIMATION => line
  end.

(** Lines 207-216: where the token starts, if there is one. *)
Definition locate (cfg : config) (cursor : list byte) : option (list byte) :=
  match delimation cfg with
  | ASCII_WHITESPACE_DELIMATION => next_word_start cursor
  | _ => if is_nul (deref cursor) then None else Some cursor
  end.

(** Lines 224-227, 234-237 and 295-297: on to the next word in whitespace
    delimation, out of the token loop otherwise. *)
Definition advance (cfg : config) : jump :=
  match delimation cfg with
  | ASCII_WHITESPACE_DELIMATION => NextWord
  | _ => Break
  end.

(** Lines 174-188. *)
Inductive read_ret :=
| AtEOF
| ReadErr (errno : Z)
| Line (raw : list byte) (rest : FILE).

Definition getline_function (cfg : config) : list byte :=
  match delimation cfg with
  | NULL_BYTE_DELIMATION => bytes "getdelim"
  | _ => bytes "getline"
  end.

Definition read (cfg : config) (stdin : FILE) : read_ret :=
  match pending stdin with
  | [] => match failure stdin with
          | None => AtEOF
          | Some e => ReadErr e
          end
  | _ :: _ =>
      let delim := match delimation cfg with
                   | NULL_BYTE_DELIMATION => x00
                   | _ => x0a
                   end in
      let (raw, rest) := getdelim delim (pending stdin) in
      Line raw {| pending := rest; failure := failure stdin |}
  end.

(** Lines 87-90. *)
Definition sigusr1_handler (signal : string) : jump := Quit 1.

(** Lines 248-261: what the child does up to the point where the command
    runs.  A failing [dup2] leaves the error stream as it was inherited, and
    the child then returns from [main]: [exit(3)] writes the child's copy of
    the output that the parent has buffered, to the standard output of the
    parent unless the child has replaced its own, which it has once the
    second [dup2] has succeeded.  After a failing [execvp] the same copy goes
    to [/dev/null] and leaves no event. *)
Definition child (cfg : config) (fate : child_fate) : list event :=
  match fate with
  | Dup2Fails call e =>
      ChildStderr STDERR_FILENO (bytes "dup2") e
      :: match call with
         | OntoStdin | OntoStdout => [ChildFlush]
         | OntoStderr => []
         end
  | ExecFails e _ =>
      [ChildStderr (errout_fd cfg) (hd [] (command cfg)) e;
       ChildKill SIGUSR1_name]
  | ExecFailsPending e =>
      [ChildStderr (errout_fd cfg) (hd [] (command cfg)) e;
       ChildKillPending SIGUSR1_name]
  | ExecRuns => [ChildExec (command cfg)]
  end.

(** ** A platform and systems for the examples

    The encodings of the wait status and of the file mode that Linux uses,
    and a few systems that answer by the path alone. *)

Definition linux : platform :=
  {| WIFEXITED := fun status => (Z.land status 127 =? 0)%Z;
     WEXITSTATUS := fun status => Z.shiftr (Z.land status 65280) 8;
     WIFSIGNALED := fun status =>
       ((0 <? Z.land status 127) && (Z.land status 127 <? 127))%Z;
     WTERMSIG := fun status => Z.land status 127;
     S_ISDIR := fun st_mode => (Z.land st_mode 61440 =? 16384)%Z;
     EISDIR := 21 |}.

Definition ENOENT : Z := 2.
Definition EINTR : Z := 4.
Definition EIO : Z := 5.

Definition bytes_eqb (a b : list byte) : bool :=
  if list_eq_dec Byte.byte_eq_dec a b then true else false.

(** A regular file, and what its child and [wait] do. *)
Definition regular (fate : child_fate) (waits : list wait_ret) : syscalls :=
  {| sys_open := OpenFd 3; sys_fstat := FstatOk 33188;
     sys_setenv := None; sys_fork := None;
     sys_child := fate; sys_wait := waits |}.

(** The status of a child that exited with [code]. *)
Definition exited (code : Z) : wait_ret := WaitPid (Z.shiftl code 8).

(** [b.txt] does not exist, [dir] is a directory, [fstat] fails on [bad],
    the command fails on [odd], is killed by signal 9 on [killed], and
    succeeds on every other path. *)
Definition demo : oracle := fun _ path =>
  if bytes_eqb path (bytes "b.txt") then
    {| sys_open := OpenErr ENOENT; sys_fstat := FstatErr ENOENT;
       sys_setenv := None; sys_fork := None;
       sys_child := ExecRuns; sys_wait := [] |}
  else if bytes_eqb path (bytes "dir") then
    {| sys_open := OpenFd 3; sys_fstat := FstatOk 16877;
       sys_setenv := None; sys_fork := None;
       sys_child := ExecRuns; sys_wait := [] |}
  else if bytes_eqb path (bytes "bad") then
    {| sys_open := OpenFd 3; sys_fstat := FstatErr EIO;
       sys_setenv := None; sys_fork := None;
       sys_child := ExecRuns; sys_wait := [] |}
  else if bytes_eqb path (bytes "odd") then regular ExecRuns [exited 1]
  else if bytes_eqb path (bytes "killed") then
    regular ExecRuns [WaitPid 4991; WaitPid 9]
  else regular ExecRuns [exited 0].

(** Every path can be opened, but the command cannot be executed. *)
Definition no_such_command : oracle := fun _ _ =>
  regular (ExecFails ENOENT DuringWait) [].

(** The first [wait] for every child is interrupted. *)
Definition interrupted : oracle := fun _ _ =>
  regular ExecRuns [WaitErr EINTR; exited 0].

(** No path can be opened. *)
Definition nothing_opens : oracle := fun _ _ =>
  {| sys_open := OpenErr ENOENT; sys_fstat := FstatErr ENOENT;
     sys_setenv := None; sys_fork := None;
     sys_child := ExecRuns; sys_wait := [] |}.

Definition line_mode : config :=
  {| delimation := LINE_DELIMATION; display_on_success := true;
     redirect_stderr := false; command := [bytes "cat"] |}.

Definition null_mode : config :=
  {| delimation := NULL_BYTE_DELIMATION; display_on_success := true;
     redirect_stderr := false; command := [bytes "true"] |}.

Definition word_mode : config :=
  {| delimation := ASCII_WHITESPACE_DELIMATION; display_on_success := true;
     redirect_stderr := false; command := [bytes "cat"] |}.

(** Lines of text as standard input. *)
Definition lines (l : list string) : FILE :=
  {| pending := flat_map (fun s => bytes s ++ [x0a]) l; failure := None |}.

(** A value together with the equation that says where it comes from, for
    the termination proofs of the loops. *)
Definition inspect {A : Type} (a : A) : {b : A | a = b} := exist _ a eq_refl.

Section Query.

Variable P : platform.
Variable os : oracle.

(** Lines 275-281. *)
Definition classify (status : Z) : option Z :=
  if WIFEXITED P status then Some (WEXITSTATUS P status)
  else if WIFSIGNALED P status then Some (WTERMSIG P status + 128)%Z
  else None.

(** Lines 283-284. *)
Definition display (cfg : config) (return_code : Z) : bool :=
  (display_on_success cfg && (return_code =? EXIT_SUCCESS)%Z)
  || (negb (display_on_success cfg) && negb (return_code =? EXIT_SUCCESS)%Z).

(** Lines 283-290. *)
Definition emit (cfg : config) (line cursor : list byte) (return_code : Z)
    (s : state) : state :=
  if display cfg return_code then
    match delimation cfg with
    | NULL_BYTE_DELIMATION => log (Stdout line) s
    | _ => log (Stdout (cstr cursor ++ [x0a])) s
    end
  else s.

(** Lines 269-297. *)
Fixpoint wait_loop (cfg : config) (line cursor : list byte)
    (waits : list wait_ret) (s : state) : jump * state :=
  match waits with
  | [] => (Blocked, s)
  | WaitErr e :: _ =>
      (Quit 1, perror (bytes "wait") e (log (Wait (WaitErr e)) s))
  | (WaitPid status | WaitEarlier status | WaitInherited status) as r
    :: waits' =>
      let s := log (Wait r) s in
      match classify status with
      | Some return_code => (advance cfg, emit cfg line cursor return_code s)
      | None => wait_loop cfg line cursor waits' s
      end
  end.

(** Lines 243-265, the parent after a successful [fork], and the wait.  When
    [execvp] fails and the signal of the child is delivered, the handler
    ends the program before the parent closes its descriptor, or after;
    in every other case the parent closes its descriptor and waits. *)
Definition parent (cfg : config) (line cursor : list byte) (sys : syscalls)
    (s : state) : jump * state :=
  match sys_child sys with
  | ExecFails _ BeforeClose => (sigusr1_handler SIGUSR1_name, s)
  | ExecFails _ DuringWait => (sigusr1_handler SIGUSR1_name, log Close s)
  | _ => wait_loop cfg line cursor (sys_wait sys) (log Close s)
  end.

(** Lines 218-297: one token. *)
Definition query (cfg : config) (line cursor : list byte) (s : state)
    : jump * state :=
  let path := cstr cursor in
  let sys := os (opens s) path in
  let s := log (Open path (sys_open sys)) (tick s) in
  match sys_open sys with
  | OpenErr e => (advance cfg, perror path e (flag_non_fatal s))
  | OpenBlocks => (Blocked, s)
  | OpenFd _ =>
      let s := log (Fstat (sys_fstat sys)) s in
      match sys_fstat sys with
      | FstatErr e => (Quit 1, perror path e s)
      | FstatOk st_mode =>
          if S_ISDIR P st_mode then
            (advance cfg, log (Stderr path (EISDIR P)) (flag_non_fatal s))
          else
            match sys_setenv sys with
            | Some e => (Quit 1, perror (bytes "setenv") e s)
            | None =>
                let s := log (Setenv path) s in
                match sys_fork sys with
                | Some e => (Quit 1, perror (bytes "fork") e s)
                | None =>
                    let s := log Fork s in
                    let s := fold_left (fun s e => log e s)
                               (child cfg (sys_child sys)) s in
                    parent cfg line cursor sys s
                end
            end
      end
  end.

(** Lines 205-302: the tokens of one raw read, from [cursor] on.  The
    result is never [NextWord]. *)
Equations? token_loop (cfg : config) (line cursor : list byte) (s : state)
    : jump * state by wf (length cursor) lt :=
  token_loop cfg line [] s := (Break, s);
  token_loop cfg line (c :: rest) s with inspect (locate cfg (c :: rest)) := {
    | exist _ None _ => (Break, s)
    | exist _ (Some word) Hword with query cfg line word s := {
        | (NextWord, s') => token_loop cfg line (word_end word) s'
        | (j, s') => (j, s') } }.
Proof.
  assert (Hend : forall w, length (word_end w) <= length w).
  { induction w as [|b w IH]; simpl; [lia|].
    destruct (is_nul b); simpl; lia. }
  assert (Hskip : forall cur w, next_word_start cur = Some w ->
                   length w <= length cur /\ is_nul (deref w) = false).
  { induction cur as [|b cur IH]; simpl; intros w Hw; [discriminate|].
    destruct (is_nul b) eqn:Hb.
    - destruct (IH _ Hw); split; [lia|assumption].
    - injection Hw as <-. split; [simpl; lia|exact Hb]. }
  assert (Hw : length word <= length (c :: rest) /\ is_nul (deref word) = false).
  { unfold locate in Hword. destruct (delimation cfg).
    - destruct (is_nul (deref (c :: rest))) eqn:Hc; [discriminate|].
      injection Hword as <-. split; [lia|exact Hc].
    - destruct (is_nul (deref (c :: rest))) eqn:Hc; [discriminate|].
      injection Hword as <-. split; [lia|exact Hc].
    - apply Hskip; exact Hword. }
  destruct Hw as [Hlen Hnn].
  destruct word as [|b w]; [discriminate|].
  simpl in *. rewrite Hnn. specialize (Hend w). lia.
Qed.

(** Lines 169-305: the driving loop and the final [return]. *)
Equations? main_loop (cfg : config) (stdin : FILE) (s : state)
    : outcome by wf (length (pending stdin)) lt :=
  main_loop cfg stdin s with inspect (read cfg stdin) := {
    | exist _ AtEOF _ => Exit (if non_fatal_errors s then 2 else 0) s
    | exist _ (ReadErr e) _ => Exit 1 (perror (getline_function cfg) e s)
    | exist _ (Line raw rest) Hread
        with token_loop cfg (prepare cfg raw) (prepare cfg raw)
                        (log (Read raw) s) := {
        | (Quit status, s') => Exit status s'
        | (Blocked, s') => Hang s'
        | (_, s') => main_loop cfg rest s' } }.
Proof.
  all: unfold read in Hread; destruct (pending stdin) as [|c l] eqn:Hp;
    [destruct (failure stdin); discriminate|];
    destruct (getdelim _ (c :: l)) as [r t] eqn:Hg;
    injection Hread as _ <-; simpl;
    assert (Hlen : forall d l r t, getdelim d l = (r, t) ->
                     length t <= length l)
      by (clear; intros d l; induction l as [|b l IH]; simpl; intros r t H;
          [injection H as _ <-; simpl; lia|];
          destruct (Byte.eqb b d);
          [injection H as _ <-; lia|];
          destruct (getdelim d l) as [r' t'];
          injection H as _ <-; specialize (IH _ _ eq_refl); lia);
    simpl in Hg; destruct (Byte.eqb c _);
    [injection Hg as _ <-; lia|];
    destruct (getdelim _ l) as [r' t'] eqn:Hg';
    injection Hg as _ <-; apply Hlen in Hg'; lia.
Qed.

(** The program from line 160 on. *)
Definition main (cfg : config) (stdin : FILE) : outcome :=
  main_loop cfg stdin initial.

(** ** What is read off a trace *)

(** The bytes written to standard output. *)
Definition stdout_of (tr : list event) : list byte :=
  flat_map (fun e => match e with Stdout b => b | _ => [] end) tr.

(** A status that [wait] returns for a child that the program forked, when
    it has terminated: the child is reaped.  A status of a child that the
    process had before reaps none of those that the program forked. *)
Definition reaps (e : event) : bool :=
  match e with
  | Wait (WaitPid status | WaitEarlier status) =>
      match classify status with Some _ => true | None => false end
  | _ => false
  end.

(** The children that the program has forked and that exist after a trace,
    terminated or not, and the children spawned since the last path was
    opened. *)
Definition census (n : nat * nat) (e : event) : nat * nat :=
  match e with
  | Fork => (S (fst n), S (snd n))
  | Open _ _ => (fst n, 0)
  | _ => if reaps e then (pred (fst n), snd n) else n
  end.

Definition children (tr : list event) : nat := fst (fold_left census tr (0, 0)).
Definition spawned_since_open (tr : list event) : nat :=
  snd (fold_left census tr (0, 0)).

(** The last raw record read and the last path opened. *)
Definition track (c : list byte * list byte) (e : event)
    : list byte * list byte :=
  match e with
  | Read raw => (raw, snd c)
  | Open path _ => (fst c, path)
  | _ => c
  end.

Definition last_open (tr : list event) : list byte :=
  snd (fold_left track tr ([], [])).

(** A property of every event of a trace and of the events before it. *)
Definition always (phi : list event -> event -> Prop) (tr : list event)
    : Prop :=
  forall pre e post, tr = pre ++ e :: post -> phi pre e.

(** The same for the events that extend a trace. *)
Fixpoint extends (phi : list event -> event -> Prop) (tr delta : list event)
    : Prop :=
  match delta with
  | [] => True
  | e :: delta' => phi tr e /\ extends phi (tr ++ [e]) delta'
  end.

(** ** Predicates on traces and on the events of one token *)

(** What holds after a token, for the proof rule of the driving loop: [Q]
    of the way the program ends, or [J] when it goes on. *)
Definition after_token (J : list byte -> state -> Prop) (Q : outcome -> Prop)
    (raw : list byte) (r : jump * state) : Prop :=
  match r with
  | (Quit status, s') => Q (Exit status s')
  | (Blocked, s') => Q (Hang s')
  | (_, s') => J raw s'
  end.

(** Statuses that report a child that has not terminated. *)
Definition not_terminated (r : wait_ret) : Prop :=
  exists status, status_of r = Some status /\ classify status = None.

(** The same in the words of lines 275-281: a status that says neither that
    the child exited nor that a signal terminated it. *)
Definition still_running (r : wait_ret) : Prop :=
  exists status,
    status_of r = Some status /\
    WIFEXITED P status = false /\ WIFSIGNALED P status = false.

(** The state after some more events. *)
Definition logs (delta : list event) (s : state) : state :=
  fold_left (fun s e => log e s) delta s.

(** Lines 283-290 as events: what [emit] writes. *)
Definition emission (cfg : config) (line cursor : list byte)
    (return_code : Z) : list event :=
  if display cfg return_code then
    match delimation cfg with
    | NULL_BYTE_DELIMATION => [Stdout line]
    | _ => [Stdout (cstr cursor ++ [x0a])]
    end
  else [].

(** The events of the wait loop on the answers [waits], by the way it
    ends. *)
Inductive wait_shape (cfg : config) (line cursor : list byte)
    (waits : list wait_ret) : jump -> list event -> Prop :=
| ws_blocked :
    Forall not_terminated waits ->
    wait_shape cfg line cursor waits Blocked (map Wait waits)
| ws_failed before e after :
    waits = before ++ WaitErr e :: after ->
    Forall not_terminated before ->
    wait_shape cfg line cursor waits (Quit 1)
      (map Wait before ++ [Wait (WaitErr e); Stderr (bytes "wait") e])
| ws_reaped before r after status return_code :
    waits = before ++ r :: after ->
    Forall not_terminated before ->
    status_of r = Some status ->
    classify status = Some return_code ->
    wait_shape cfg line cursor waits (advance cfg)
      (map Wait before ++ Wait r :: emission cfg line cursor return_code).

(** The events of one token, by the way [query] ends, and whether it sets
    the non-fatal flag. *)
Inductive query_shape (cfg : config) (line cursor : list byte)
    (sys : syscalls) : jump -> bool -> list event -> Prop :=
| qs_open_fails e :
    sys_open sys = OpenErr e ->
    query_shape cfg line cursor sys (advance cfg) true
      [Open (cstr cursor) (OpenErr e); Stderr (cstr cursor) e]
| qs_fstat_fails fd e :
    sys_open sys = OpenFd fd -> sys_fstat sys = FstatErr e ->
    query_shape cfg line cursor sys (Quit 1) false
      [Open (cstr cursor) (OpenFd fd); Fstat (FstatErr e);
       Stderr (cstr cursor) e]
| qs_directory fd st_mode :
    sys_open sys = OpenFd fd -> sys_fstat sys = FstatOk st_mode ->
    S_ISDIR P st_mode = true ->
    query_shape cfg line cursor sys (advance cfg) true
      [Open (cstr cursor) (OpenFd fd); Fstat (FstatOk st_mode);
       Stderr (cstr cursor) (EISDIR P)]
| qs_setenv_fails fd st_mode e :
    sys_open sys = OpenFd fd -> sys_fstat sys = FstatOk st_mode ->
    S_ISDIR P st_mode = false -> sys_setenv sys = Some e ->
    query_shape cfg line cursor sys (Quit 1) false
      [Open (cstr cursor) (OpenFd fd); Fstat (FstatOk st_mode);
       Stderr (bytes "setenv") e]
| qs_fork_fails fd st_mode e :
    sys_open sys = OpenFd fd -> sys_fstat sys = FstatOk st_mode ->
    S_ISDIR P st_mode = false -> sys_setenv sys = None ->
    sys_fork sys = Some e ->
    query_shape cfg line cursor sys (Quit 1) false
      [Open (cstr cursor) (OpenFd fd); Fstat (FstatOk st_mode);
       Setenv (cstr cursor); Stderr (bytes "fork") e]
| qs_exec_fails fd st_mode e at_ :
    sys_open sys = OpenFd fd -> sys_fstat sys = FstatOk st_mode ->
    S_ISDIR P st_mode = false -> sys_setenv sys = None ->
    sys_fork sys = None -> sys_child sys = ExecFails e at_ ->
    query_shape cfg line cursor sys (Quit 1) false
      ([Open (cstr cursor) (OpenFd fd); Fstat (FstatOk st_mode);
        Setenv (cstr cursor); Fork;
        ChildStderr (errout_fd cfg) (hd [] (command cfg)) e;
        ChildKill SIGUSR1_name]
       ++ match at_ with BeforeClose => [] | DuringWait => [Close] end)
| qs_waited fd st_mode j w :
    sys_open sys = OpenFd fd -> sys_fstat sys = FstatOk st_mode ->
    S_ISDIR P st_mode = false -> sys_setenv sys = None ->
    sys_fork sys = None ->
    (forall e at_, sys_child sys <> ExecFails e at_) ->
    wait_shape cfg line cursor (sys_wait sys) j w ->
    query_shape cfg line cursor sys j false
      ([Open (cstr cursor) (OpenFd fd); Fstat (FstatOk st_mode);
        Setenv (cstr cursor); Fork]
       ++ child cfg (sys_child sys) ++ Close :: w)
| qs_open_blocks :
    sys_open sys = OpenBlocks ->
    query_shape cfg line cursor sys Blocked false
      [Open (cstr cursor) OpenBlocks].

(** The run ended with status 1 in the token that produced the event. *)
Definition ended_by (bad : event -> bool) (cfg : config) (o : outcome)
    : Prop :=
  exists s line cursor flagged delta,
    o = Exit 1 {| non_fatal_errors := non_fatal_errors s || flagged;
                  opens := S (opens s);
                  trace := trace s ++ delta |} /\
    query_shape cfg line cursor (os (opens s) (cstr cursor))
      (Quit 1) flagged delta /\
    existsb bad delta = true /\
    existsb bad (trace s) = false.

(** The events that make the run end at once. *)
Definition fstat_failed (e : event) : bool :=
  match e with Fstat (FstatErr _) => true | _ => false end.

Definition wait_failed (e : event) : bool :=
  match e with Wait (WaitErr _) => true | _ => false end.

Definition notified (e : event) : bool :=
  match e with ChildKill _ => true | _ => false end.

(** What happens between [fork] and the end of the parent when [execvp]
    fails in the child. *)
Definition launch_failure (cfg : config) (e : Z) (at_ : delivery)
    : list event :=
  [Fork; ChildStderr (errout_fd cfg) (hd [] (command cfg)) e;
   ChildKill SIGUSR1_name]
  ++ match at_ with BeforeClose => [] | DuringWait => [Close] end.



(** The events that say that a path was refused. *)
Definition refusing (e : event) : bool :=
  match e with
  | Open _ (OpenErr _) => true
  | Fstat (FstatOk st_mode) => S_ISDIR P st_mode
  | _ => false
  end.

(** Events other than reading, opening and writing to standard output. *)
Definition inner (e : event) : bool :=
  match e with
  | Read _ | Open _ _ | Stdout _ => false
  | _ => true
  end.


(** What the number of children and the number of children spawned for the
    current token have to be when an event happens. *)
Definition orderly_at (n : nat * nat) (e : event) : Prop :=
  match e with
  | Read _ | Open _ _ | Fstat _ | Setenv _ => fst n = 0
  | Fork => fst n = 0 /\ snd n = 0
  | ChildStderr _ _ _ | ChildKill _ | ChildKillPending _ | ChildFlush
  | ChildExec _ | Close | Wait _ =>
      fst n = 1 /\ snd n = 1
  | Stdout _ => fst n = 0 /\ snd n = 1
  | Stderr _ _ => fst n <= 1
  end.

(** The same, for the events before. *)
Definition orderly (pre : list event) (e : event) : Prop :=
  orderly_at (children pre, spawned_since_open pre) e.

(** The same along more events, from given numbers on. *)
Fixpoint orderly_from (n : nat * nat) (delta : list event) : Prop :=
  match delta with
  | [] => True
  | e :: delta' => orderly_at n e /\ orderly_from (census n e) delta'
  end.

(** The outcome of a record: the token, the return code of its child, and
    whether the token was written. *)
Record verdict := mkVerdict {
  v_token : list byte;
  v_code : Z;
  v_emitted : bool
}.

(** A record exists once [wait] returns a status of a terminated child; a
    write to standard output marks the last record as written. *)
Definition judge (st : list byte * list verdict) (e : event)
    : list byte * list verdict :=
  match e with
  | Open path _ => (path, snd st)
  | Wait (WaitPid status | WaitEarlier status | WaitInherited status) =>
      match classify status with
      | Some return_code =>
          (fst st, mkVerdict (fst st) return_code false :: snd st)
      | None => st
      end
  | Stdout _ =>
      (fst st,
       match snd st with
       | v :: vs => mkVerdict (v_token v) (v_code v) true :: vs
       | [] => []
       end)
  | _ => st
  end.

(** The records of a trace, in the order of the input. *)
Definition verdicts (tr : list event) : list verdict :=
  rev (snd (fold_left judge tr ([], []))).

(** The configuration with the polarity flag set to [b]. *)
Definition with_display (b : bool) (cfg : config) : config :=
  {| delimation := delimation cfg;
     display_on_success := b;
     redirect_stderr := redirect_stderr cfg;
     command := command cfg |}.



(** ** More that is read off a trace *)

(** The bytes read from standard input. *)
Definition reads (tr : list event) : list byte :=
  flat_map (fun e => match e with Read raw => raw | _ => [] end) tr.


(** The paths that the program tried to open, in order. *)
Definition opened (tr : list event) : list (list byte) :=
  flat_map (fun e => match e with Open path _ => [path] | _ => [] end) tr.

(** A byte that can be part of a path in the given delimation: never the
    null byte, no white space in whitespace delimation, no line separator in
    line delimation. *)
Definition path_byte (cfg : config) (c : byte) : Prop :=
  c <> x00 /\
  (delimation cfg = ASCII_WHITESPACE_DELIMATION -> isspace c = false) /\
  (delimation cfg = LINE_DELIMATION -> c <> x0a).

(** ** The tokens of an input, said without pointers

    What the tokenizer is to compute, for comparison with the loops of the
    program. *)

(** The byte that ends a raw record. *)
Definition delimiter (cfg : config) : byte :=
  match delimation cfg with
  | NULL_BYTE_DELIMATION => x00
  | _ => x0a
  end.

(** The raw records of an input: the input cut after every delimiter. *)
Fixpoint records (d : byte) (l : list byte) : list (list byte) :=
  match l with
  | [] => []
  | c :: l' =>
      if Byte.eqb c d then [c] :: records d l'
      else match records d l' with
           | r :: rs => (c :: r) :: rs
           | [] => [[c]]
           end
  end.

(** The fields between the separators of a list, the empty ones included. *)
Fixpoint fields (sep : byte -> bool) (l : list byte) : list (list byte) :=
  match l with
  | [] => [[]]
  | c :: l' =>
      if sep c then [] :: fields sep l'
      else match fields sep l' with
           | f :: fs => (c :: f) :: fs
           | [] => [[c]]
           end
  end.

Definition nonempty (w : list byte) : bool :=
  match w with [] => false | _ :: _ => true end.

(** The words of a list: its fields that are not empty. *)
Definition words_by (sep : byte -> bool) (l : list byte)
    : list (list byte) :=
  filter nonempty (fields sep l).

(** White space and the null byte separate the words of a line. *)
Definition separates (c : byte) : bool := isspace c || is_nul c.

(** A record without the delimiter at its end, if it has one. *)
Definition chomp (d : byte) (raw : list byte) : list byte :=
  if Byte.eqb (last raw x00) d then removelast raw else raw.

(** A path as a list of tokens: none when it is empty. *)
Definition one (path : list byte) : list (list byte) :=
  if nonempty path then [path] else [].

(** The tokens of a raw record: the words of the line in whitespace
    delimation; the line without its separator, up to its first null byte,
    in line delimation; the record without its null byte in null byte
    delimation; and no token when that is empty. *)
Definition tokens (cfg : config) (raw : list byte) : list (list byte) :=
  match delimation cfg with
  | ASCII_WHITESPACE_DELIMATION => words_by separates raw
  | LINE_DELIMATION => one (cstr (chomp x0a raw))
  | NULL_BYTE_DELIMATION => one (chomp x00 raw)
  end.

(** The tokens of an input. *)
Definition all_tokens (cfg : config) (input : list byte)
    : list (list byte) :=
  flat_map (tokens cfg) (records (delimiter cfg) input).

(** The tokens from the cursor on, in the buffer as [prepare] leaves it. *)
Definition tokens_from (cfg : config) (cursor : list byte)
    : list (list byte) :=
  match delimation cfg with
  | ASCII_WHITESPACE_DELIMATION => words_by is_nul cursor
  | _ => one (cstr cursor)
  end.

(** The event of a command that was executed. *)
Definition executed (e : event) : bool :=
  match e with ChildExec _ => true | _ => false end.

(** How a command is executed: with the arguments of the command line, in a
    child forked after the path was opened, found not to be a directory and
    put into the environment. *)
Definition launched (cfg : config) (pre : list event) (e : event) : Prop :=
  forall argv, e = ChildExec argv ->
    argv = command cfg /\
    exists before path fd st_mode,
      pre = before ++ [Open path (OpenFd fd); Fstat (FstatOk st_mode);
                       Setenv path; Fork] /\
      S_ISDIR P st_mode = false.

(** What was written to standard output, write by write. *)
Definition emitted (tr : list event) : list (list byte) :=
  flat_map (fun e => match e with Stdout b => [b] | _ => [] end) tr.

(** The raw records that were read. *)
Definition records_read (tr : list event) : list (list byte) :=
  flat_map (fun e => match e with Read raw => [raw] | _ => [] end) tr.

(** What a run could have written: the raw records read in null byte
    delimation, and the paths opened, each followed by a line separator,
    otherwise. *)
Definition candidates (cfg : config) (tr : list event)
    : list (list byte) :=
  match delimation cfg with
  | NULL_BYTE_DELIMATION => records_read tr
  | _ => map (fun path => path ++ [x0a]) (opened tr)
  end.

(** A list obtained from another by leaving elements out. *)
Inductive subsequence {A : Type} : list A -> list A -> Prop :=
| sub_nil : subsequence [] []
| sub_skip x l1 l2 : subsequence l1 l2 -> subsequence l1 (x :: l2)
| sub_take x l1 l2 : subsequence l1 l2 -> subsequence (x :: l1) (x :: l2).

(** The configuration with the redirection of the child's error stream set
    to [b]. *)
Definition with_redirect (b : bool) (cfg : config) : config :=
  {| delimation := delimation cfg;
     display_on_success := display_on_success cfg;
     redirect_stderr := b;
     command := command cfg |}.

(** An event without the stream that the child's error stream is bound
    to. *)
Definition unsink (e : event) : event :=
  match e with
  | ChildStderr _ subject errno => ChildStderr STDERR_FILENO subject errno
  | _ => e
  end.

Definition unsink_state (s : state) : state :=
  {| non_fatal_errors := non_fatal_errors s;
     opens := opens s;
     trace := map unsink (trace s) |}.

Definition unsink_outcome (o : outcome) : outcome :=
  match o with
  | Exit status s => Exit status (unsink_state s)
  | Hang s => Hang (unsink_state s)
  end.

(** ** Before the loop: lines 47-72 and 107-158

    [getopt(3)] is not part of the repository: the option characters that
    its successive calls return are given, in order, and so are the
    arguments that are left from [optind] on when it returns -1. *)

Definition text (lines : list string) : list byte :=
  flat_map (fun l => bytes l ++ [x0a]) lines.

(** Lines 47-72: what [usage] prints. *)
Definition usage (self : list byte) : list byte :=
  bytes "Usage: " ++ self ++
  text [" [OPTION] [!] COMMAND [ARGUMENT...]";
        "";
        "This tool reads a list of files from stdin, pipes the contents of each file";
        "into the specified command and prints the name of the file if the command";
        "succeeds. The name of the file is exposed to the command via the environment";
        "variable QUERY_FILENAME.";
        "";
        "Option parsing stops at the first non-option argument.";
        "";
        "Exit statuses:";
        " 1     Fatal error encountered.";
        " 2     Non-fatal error encountered.";
        "";
        "Options:";
        " -!    Only print filenames when the COMMAND fails.";
        " -0    File names are delimited by null bytes.";
        " -h    Show this text and exit.";
        " -n    File names are line-delimited. This the default behavior.";
        " -s    Redirect stderr from the COMMAND to /dev/null.";
        " -w    File names are delimited by ASCII whitespace."].

(** What is written to the error stream before the loop: a text, or what
    [perror] writes for a subject and the [errno] of the failure. *)
Inductive diagnostic :=
| Message (t : list byte)
| Perror (subject : list byte) (errno : Z).

(** The program returns before the loop, with what it wrote, or goes on. *)
Inductive start (A : Type) :=
| Stopped (status : Z) (out : list byte) (err : list diagnostic)
| Started (a : A).

Arguments Stopped {A} status out err.
Arguments Started {A} a.

(** The locals of [main] that the options set. *)
Record options := mkOptions {
  opt_delimation : delimation_et;
  opt_display_on_success : bool;
  opt_redirect_stderr : bool
}.

(** Lines 107-111. *)
Definition defaults : options :=
  {| opt_delimation := LINE_DELIMATION;
     opt_display_on_success := true;
     opt_redirect_stderr := false |}.

(** Lines 114-140: one option character. *)
Definition option_case (self : list byte) (option : byte) (o : options)
    : start options :=
  match option with
  | x21 => Started {| opt_delimation := opt_delimation o;
                      opt_display_on_success := false;
                      opt_redirect_stderr := opt_redirect_stderr o |}
  | x30 => Started {| opt_delimation := NULL_BYTE_DELIMATION;
                      opt_display_on_success := opt_display_on_success o;
                      opt_redirect_stderr := opt_redirect_stderr o |}
  | x68 => Stopped 0 (usage self) []
  | x6e => Started {| opt_delimation := LINE_DELIMATION;
                      opt_display_on_success := opt_display_on_success o;
                      opt_redirect_stderr := opt_redirect_stderr o |}
  | x73 => Started {| opt_delimation := opt_delimation o;
                      opt_display_on_success := opt_display_on_success o;
                      opt_redirect_stderr := true |}
  | x77 => Started {| opt_delimation := ASCII_WHITESPACE_DELIMATION;
                      opt_display_on_success := opt_display_on_success o;
                      opt_redirect_stderr := opt_redirect_stderr o |}
  | x2b => Stopped 1 []
             [Message (self ++ bytes ": invalid option -- '+'" ++ [x0a])]
  | _ => Stopped 1 [] []
  end.

(** Lines 113-141: the option characters that [getopt] returns, one after
    the other. *)
Fixpoint options_loop (self : list byte) (returned : list byte) (o : options)
    : start options :=
  match returned with
  | [] => Started o
  | option :: returned' =>
      match option_case self option o with
      | Started o' => options_loop self returned' o'
      | Stopped status out err => Stopped status out err
      end
  end.

(** Lines 143-147: an exclamation mark as the first argument that is not an
    option. *)
Definition bang (o : options) (args : list (list byte))
    : options * list (list byte) :=
  match args with
  | [x21] :: args' =>
      ({| opt_delimation := opt_delimation o;
          opt_display_on_success := false;
          opt_redirect_stderr := opt_redirect_stderr o |}, args')
  | _ => (o, args)
  end.

(** Lines 113-158: from the options to the configuration of the loop.
    [dev_null] and [handler] are the [errno] of a failing [open] of
    [/dev/null] and of a failing [signal], if they fail. *)
Definition setup (self : list byte) (returned : list byte)
    (args : list (list byte)) (dev_null handler : option Z) : start config :=
  match options_loop self returned defaults with
  | Stopped status out err => Stopped status out err
  | Started o =>
      let (o, args) := bang o args in
      match args with
      | [] =>
          Stopped 1 [] [Message (bytes "No command specified." ++ [x0a])]
      | _ :: _ =>
          match dev_null with
          | Some e => Stopped 1 [] [Perror (bytes "/dev/null") e]
          | None =>
              match handler with
              | Some e => Stopped 1 [] [Perror (bytes "signal") e]
              | None =>
                  Started {| delimation := opt_delimation o;
                             display_on_success := opt_display_on_success o;
                             redirect_stderr := opt_redirect_stderr o;
                             command := args |}
              end
          end
      end
  end.

(** Lines 92-305: the whole of [main]. *)
Definition program (self : list byte) (returned : list byte)
    (args : list (list byte)) (dev_null handler : option Z) (stdin : FILE)
    : start outcome :=
  match setup self returned args dev_null handler with
  | Stopped status out err => Stopped status out err
  | Started cfg => Started (main cfg stdin)
  end.

(** ** The options, said without a loop *)

(** The option characters that set a flag. *)
Definition is_flag (c : byte) : bool :=
  match c with
  | x21 | x30 | x6e | x73 | x77 => true
  | _ => false
  end.

(** The option characters that choose the delimation. *)
Definition is_delimation (c : byte) : bool :=
  match c with
  | x30 | x6e | x77 => true
  | _ => false
  end.

(** The delimation that the options choose: that of the last option that
    names one, and line delimation when there is none. *)
Definition chosen_delimation (returned : list byte) : delimation_et :=
  match find is_delimation (rev returned) with
  | Some x30 => NULL_BYTE_DELIMATION
  | Some x77 => ASCII_WHITESPACE_DELIMATION
  | _ => LINE_DELIMATION
  end.

(** The first argument is an exclamation mark. *)
Definition has_bang (args : list (list byte)) : bool :=
  match args with
  | [x21] :: _ => true
  | _ => false
  end.

(** The command: the arguments after the exclamation mark, if there is
    one. *)
Definition after_bang (args : list (list byte)) : list (list byte) :=
  match args with
  | [x21] :: args' => args'
  | _ => args
  end.

(** The configuration that options and arguments ask for. *)
Definition configuration (returned : list byte) (args : list (list byte))
    : config :=
  {| delimation := chosen_delimation returned;
     display_on_success :=
       negb (existsb (Byte.eqb x21) returned || has_bang args);
     redirect_stderr := existsb (Byte.eqb x73) returned;
     command := after_bang args |}.

(** The event of a child that was spawned. *)
Definition forked (e : event) : bool :=
  match e with Fork => true | _ => false end.

(** The number of the events of a kind. *)
Definition count (kind : event -> bool) (tr : list event) : nat :=
  length (filter kind tr).

(** Events other than reading and opening. *)
Definition no_open (e : event) : bool :=
  match e with
  | Read _ | Open _ _ => false
  | _ => true
  end.

(** The event of a diagnostic of the parent. *)
Definition diagnosing (e : event) : bool :=
  match e with Stderr _ _ => true | _ => false end.

(** What a diagnostic of the loop has to name and which [errno] it has to
    report, given the events before it: the last of them is the operation
    that failed, with its [errno], or the operation before the one that
    failed, and then the [errno] is what the system answered for the path
    last opened. *)
Definition explained (cfg : config) (stdin : FILE) (pre : list event)
    (subject : list byte) (errno : Z) : Prop :=
  let path := last_open pre in
  let sys := os (pred (length (opened pre))) path in
  match last pre (Read []) with
  | Open _ (OpenErr e) => subject = path /\ errno = e
  | Fstat (FstatErr e) => subject = path /\ errno = e
  | Fstat (FstatOk st_mode) =>
      if S_ISDIR P st_mode then subject = path /\ errno = EISDIR P
      else subject = bytes "setenv" /\ sys_setenv sys = Some errno
  | Setenv _ => subject = bytes "fork" /\ sys_fork sys = Some errno
  | Wait (WaitErr e) => subject = bytes "wait" /\ errno = e
  | _ => subject = getline_function cfg /\ failure stdin = Some errno
  end.

Definition explains (cfg : config) (stdin : FILE) (pre : list event)
    (e : event) : Prop :=
  forall subject errno,
    e = Stderr subject errno -> explained cfg stdin pre subject errno.

(** The last event is not one that a diagnostic of the token follows. *)
Definition settled (tr : list event) : Prop :=
  match last tr (Read []) with
  | Open _ _ | Fstat _ | Setenv _ | Wait (WaitErr _) => False
  | _ => True
  end.

(** The system lets the command run on the path, and the command succeeds:
    the path is opened and is not a directory, nothing fails, and the first
    status that [wait] returns is that of a child that ended with code 0. *)
Definition succeeds (sys : syscalls) : Prop :=
  exists fd st_mode status waits,
    sys_open sys = OpenFd fd /\
    sys_fstat sys = FstatOk st_mode /\
    S_ISDIR P st_mode = false /\
    sys_setenv sys = None /\
    sys_fork sys = None /\
    sys_child sys = ExecRuns /\
    sys_wait sys = WaitPid status :: waits /\
    classify status = Some 0%Z.

(** What is written for a raw record of which every token is written: the
    record as it is in null byte delimation, if it has a token, and every
    token followed by a line separator otherwise. *)
Definition written (cfg : config) (raw : list byte) : list (list byte) :=
  match delimation cfg with
  | NULL_BYTE_DELIMATION =>
      match tokens cfg raw with [] => [] | _ :: _ => [raw] end
  | _ => map (fun path => path ++ [x0a]) (tokens cfg raw)
  end.

(** The same from the cursor on. *)
Definition written_from (cfg : config) (raw cursor : list byte)
    : list (list byte) :=
  match delimation cfg with
  | NULL_BYTE_DELIMATION =>
      match tokens_from cfg cursor with [] => [] | _ :: _ => [raw] end
  | _ => map (fun path => path ++ [x0a]) (tokens_from cfg cursor)
  end.

(** What is written for an input of which every token is written. *)
Definition all_written (cfg : config) (input : list byte)
    : list (list byte) :=
  flat_map (written cfg) (records (delimiter cfg) input).

(** ** The records of an input and their return codes

    What the output is to be, said from the input and the answers of the
    system alone, for comparison with what the program writes. *)









(** ** What reaches the descriptor of standard output

    [puts] and [fwrite] put the bytes into the buffer of [stdout].  When the
    library passes buffered bytes on to the descriptor is its own choice,
    which depends on what the descriptor is; it can do so whenever the
    parent uses [stdio], to read or to write, and it does so when the
    program ends.  A child inherits a copy of the buffer: when it returns
    from [main] with its standard output still that of the parent,
    [exit(3)] writes the copy. *)

(** How many of the buffered bytes the library passes on when the parent
    read or wrote (the event) and the given bytes are buffered. *)
Definition buffering := event -> list byte -> nat.

(** The bytes that reach the descriptor along a trace, and those that are
    still buffered after it. *)
Fixpoint on_descriptor (policy : buffering) (buffer : list byte)
    (tr : list event) : list byte * list byte :=
  match tr with
  | [] => ([], buffer)
  | e :: tr' =>
      match e with
      | Stdout data =>
          let n := policy e (buffer ++ data) in
          let (out, left) :=
            on_descriptor policy (skipn n (buffer ++ data)) tr' in
          (firstn n (buffer ++ data) ++ out, left)
      | Read _ =>
          let n := policy e buffer in
          let (out, left) := on_descriptor policy (skipn n buffer) tr' in
          (firstn n buffer ++ out, left)
      | ChildFlush =>
          let (out, left) := on_descriptor policy buffer tr' in
          (buffer ++ out, left)
      | _ => on_descriptor policy buffer tr'
      end
  end.

(** What has reached the descriptor when the program has ended, or for as
    long as it waits. *)
Definition descriptor_output (policy : buffering) (o : outcome)
    : list byte :=
  let (out, left) := on_descriptor policy [] (trace (final_state o)) in
  match o with
  | Exit _ _ => out ++ left
  | Hang _ => out
  end.

(** The library passes nothing on before the program ends: a descriptor
    that is not a terminal, and little output. *)
Definition fully_buffered : buffering := fun _ _ => 0.

(** The event of a child that writes its copy of the buffer. *)
Definition flushing (e : event) : bool :=
  match e with ChildFlush => true | _ => false end.

(** No child fails in [dup2] before it has replaced its standard output. *)
Definition children_replace_stdout : Prop :=
  forall n path call e,
    sys_child (os n path) = Dup2Fails call e -> call = OntoStderr.

(** ** More systems for the examples *)

(** The command succeeds on every path. *)
Definition obliging : oracle := fun _ _ => regular ExecRuns [exited 0].

(** The process was executed with a child of its own, which ends with code 0
    before the child forked for [a.txt] does: [wait] reports it first.  The
    children of the other paths end with code 0 before the one of [a.txt]
    does. *)
Definition adopted : oracle := fun _ path =>
  if bytes_eqb path (bytes "a.txt") then
    regular ExecRuns [WaitInherited (Z.shiftl 0 8)]
  else regular ExecRuns [exited 0].


(** Every path can be opened, but the environment cannot grow. *)
Definition ENOMEM : Z := 12.

Definition starved : oracle := fun _ _ =>
  {| sys_open := OpenFd 3; sys_fstat := FstatOk 33188;
     sys_setenv := Some ENOMEM; sys_fork := None;
     sys_child := ExecRuns; sys_wait := [] |}.

(** The first [dup2] fails in the child forked for [b]; the command
    succeeds on every other path. *)
Definition EBADF : Z := 9.

Definition crowded : oracle := fun _ path =>
  if bytes_eqb path (bytes "b") then
    regular (Dup2Fails OntoStdin EBADF) [exited 1]
  else regular ExecRuns [exited 0].

(** ** The children of the process *)

(** An answer of [wait] that is about the child of the token. *)
Definition own (r : wait_ret) : bool :=
  match r with
  | WaitEarlier _ | WaitInherited _ => false
  | _ => true
  end.

(** [wait] only ever reports on the child of the token, as it does when the
    process has no children but those that the program forks. *)
Definition no_other_children : Prop :=
  forall n path, forallb own (sys_wait (os n path)) = true.

(** ** The descriptors of the parent *)

(** The events that give the parent a descriptor, that close one, and that
    find a directory behind one. *)
Definition descriptor (e : event) : bool :=
  match e with Open _ (OpenFd _) => true | _ => false end.

Definition closing (e : event) : bool :=
  match e with Close => true | _ => false end.

Definition directory (e : event) : bool :=
  match e with Fstat (FstatOk st_mode) => S_ISDIR P st_mode | _ => false end.

(** * Properties *)

(** ** The loops, unfolded once *)

Lemma token_loop_eq cfg line cursor s :
  token_loop cfg line cursor s =
  match cursor with
  | [] => (Break, s)
  | _ :: _ =>
      match locate cfg cursor with
      | None => (Break, s)
      | Some word =>
          match query cfg line word s with
          | (NextWord, s') => token_loop cfg line (word_end word) s'
          | r => r
          end
      end
  end.
Proof.
  destruct cursor as [|c rest]; simp token_loop; [reflexivity|].
  destruct (inspect (locate cfg (c :: rest))) as [[word|] Hw];
    symmetry; (etransitivity; [rewrite Hw; reflexivity|]);
    simpl; [|reflexivity].
  destruct (query cfg line word s) as [[] s']; reflexivity.
Qed.

Lemma main_loop_eq cfg stdin s :
  main_loop cfg stdin s =
  match read cfg stdin with
  | AtEOF => Exit (if non_fatal_errors s then 2 else 0) s
  | ReadErr e => Exit 1 (perror (getline_function cfg) e s)
  | Line raw rest =>
      match token_loop cfg (prepare cfg raw) (prepare cfg raw)
              (log (Read raw) s) with
      | (Quit status, s') => Exit status s'
      | (Blocked, s') => Hang s'
      | (_, s') => main_loop cfg rest s'
      end
  end.
Proof.
  simp main_loop.
  destruct (inspect (read cfg stdin)) as [[|e|raw rest] Hr];
    symmetry; (etransitivity; [rewrite Hr; reflexivity|]);
    simpl; try reflexivity.
  destruct (token_loop _ _ _ _) as [[] s']; reflexivity.
Qed.

(** ** The pointer loops *)

Lemma word_end_length w : length (word_end w) <= length w.
Proof.
  induction w as [|b w IH]; simpl; [lia|].
  destruct (is_nul b); simpl; lia.
Qed.

Lemma next_word_start_some cursor w :
  next_word_start cursor = Some w ->
  length w <= length cursor /\ is_nul (deref w) = false.
Proof.
  revert w; induction cursor as [|b cursor IH]; simpl; intros w Hw;
    [discriminate|].
  destruct (is_nul b) eqn:Hb.
  - destruct (IH _ Hw); split; [lia|assumption].
  - injection Hw as <-. split; [simpl; lia|exact Hb].
Qed.

Lemma locate_some cfg cursor word :
  locate cfg cursor = Some word ->
  is_nul (deref word) = false /\ length (word_end word) < length cursor.
Proof.
  intros Hw.
  assert (H : length word <= length cursor /\ is_nul (deref word) = false).
  { unfold locate in Hw. destruct (delimation cfg).
    1, 2: destruct (is_nul (deref cursor)) eqn:Hc; [discriminate|];
          injection Hw as <-; split; [lia|exact Hc].
    apply next_word_start_some; exact Hw. }
  destruct H as [Hlen Hnn]. split; [exact Hnn|].
  destruct word as [|b w]; [discriminate|].
  simpl in *. rewrite Hnn. pose proof (word_end_length w). lia.
Qed.

Lemma getdelim_length d l :
  length (snd (getdelim d l)) <= length l /\
  (l <> [] -> length (snd (getdelim d l)) < length l).
Proof.
  induction l as [|b l IH]; simpl; [split; [lia|congruence]|].
  destruct (Byte.eqb b d); simpl; [split; intros; lia|].
  destruct (getdelim d l) as [r t]; simpl in *. split; intros; lia.
Qed.

Lemma read_line cfg stdin raw rest :
  read cfg stdin = Line raw rest ->
  length (pending rest) < length (pending stdin).
Proof.
  unfold read. destruct (pending stdin) as [|c l] eqn:Hp.
  - destruct (failure stdin); discriminate.
  - set (d := match delimation cfg with
              | NULL_BYTE_DELIMATION => x00 | _ => x0a end).
    pose proof (getdelim_length d (c :: l)) as [_ H].
    destruct (getdelim d (c :: l)) as [r t]. intros E. injection E as _ <-.
    simpl in *. apply H. discriminate.
Qed.

(** ** Traces *)

Lemma snoc_split (A : Type) (tr : list A) e pre x post :
  tr ++ [e] = pre ++ x :: post ->
  (post = [] /\ pre = tr /\ x = e) \/
  (exists post', post = post' ++ [e] /\ tr = pre ++ x :: post').
Proof.
  destruct (exists_last (l := x :: post)) as [post' [y Hy]]; [discriminate|].
  intros H. rewrite Hy, app_assoc in H.
  apply app_inj_tail in H as [H1 <-].
  destruct post' as [|z post'].
  - left. simpl in Hy. injection Hy as -> <-.
    rewrite app_nil_r in H1. auto.
  - right. simpl in Hy. injection Hy as <- ->. exists post'. auto.
Qed.

Lemma always_nil phi : always phi [].
Proof. intros [|] ? ? H; discriminate. Qed.

Lemma always_snoc phi tr e :
  always phi tr -> phi tr e -> always phi (tr ++ [e]).
Proof.
  intros Ht He pre x post H.
  apply snoc_split in H as [(_ & -> & ->)|(post' & _ & ->)];
    [exact He|].
  eapply Ht; reflexivity.
Qed.

Lemma always_extends phi delta : forall tr,
  always phi tr -> extends phi tr delta -> always phi (tr ++ delta).
Proof.
  induction delta as [|e delta IH]; simpl; intros tr Ht Hd.
  - rewrite app_nil_r; exact Ht.
  - destruct Hd as [He Hd].
    change (e :: delta) with ([e] ++ delta). rewrite app_assoc.
    apply IH; [apply always_snoc; assumption|exact Hd].
Qed.

(** ** A proof rule for the driving loop

    [J raw] holds between the tokens of the raw record [raw], [I] between
    raw reads, and [Q] of the way the program ends. *)

Section Rule.

Variable cfg : config.
Variable I : state -> Prop.
Variable J : list byte -> state -> Prop.
Variable Q : outcome -> Prop.

Hypothesis enter : forall raw s, I s -> J raw (log (Read raw) s).
Hypothesis leave : forall raw s, J raw s -> I s.
Hypothesis token : forall raw word s,
  J raw s -> is_nul (deref word) = false ->
  after_token J Q raw (query cfg (prepare cfg raw) word s).
Hypothesis at_eof : forall s,
  I s -> Q (Exit (if non_fatal_errors s then 2 else 0) s).
Hypothesis at_error : forall e s,
  I s -> Q (Exit 1 (perror (getline_function cfg) e s)).

Lemma token_loop_rule raw cursor : forall s,
  J raw s ->
  after_token J Q raw (token_loop cfg (prepare cfg raw) cursor s).
Proof.
  induction cursor as [cursor IH] using (induction_ltof1 _ (@length byte)).
  intros s Hs. rewrite token_loop_eq.
  destruct cursor as [|c rest]; [exact Hs|].
  destruct (locate cfg (c :: rest)) as [word|] eqn:Hw; [|exact Hs].
  apply locate_some in Hw as [Hnn Hlt].
  pose proof (token raw word s Hs Hnn) as Ht.
  destruct (query cfg (prepare cfg raw) word s) as [[| | |] s']; simpl in *;
    try exact Ht.
  apply IH; [exact Hlt|exact Ht].
Qed.

Lemma main_loop_rule stdin : forall s, I s -> Q (main_loop cfg stdin s).
Proof.
  induction stdin as [stdin IH]
    using (induction_ltof1 _ (fun f => length (pending f))).
  intros s Hs. rewrite main_loop_eq.
  destruct (read cfg stdin) as [|e|raw rest] eqn:Hr;
    [apply at_eof; exact Hs|apply at_error; exact Hs|].
  apply read_line in Hr.
  pose proof (token_loop_rule raw (prepare cfg raw) _ (enter raw _ Hs)) as Ht.
  destruct (token_loop _ _ _ _) as [[| | |] s']; simpl in *;
    try exact Ht; apply IH; try exact Hr; apply (leave raw _ Ht).
Qed.

End Rule.

(** ** Empty records and blank lines *)

Lemma next_word_start_blank line :
  Forall (fun c => isspace c = true) line ->
  next_word_start (map (fun c => if isspace c then x00 else c) line) = None.
Proof.
  induction 1 as [|c line Hc _ IH]; simpl; [reflexivity|].
  rewrite Hc. exact IH.
Qed.

Lemma locate_empty cfg cursor :
  delimation cfg <> ASCII_WHITESPACE_DELIMATION ->
  cstr cursor = [] -> locate cfg cursor = None.
Proof.
  intros Hd Hc. unfold locate.
  assert (Hn : is_nul (deref cursor) = true).
  { destruct cursor as [|c rest]; [reflexivity|]. simpl in *.
    destruct (is_nul c); [reflexivity|discriminate]. }
  rewrite Hn. destruct (delimation cfg); congruence.
Qed.

Lemma main_loop_skip cfg stdin raw rest s :
  read cfg stdin = Line raw rest ->
  locate cfg (prepare cfg raw) = None ->
  token_loop cfg (prepare cfg raw) (prepare cfg raw) (log (Read raw) s)
    = (Break, log (Read raw) s) /\
  main_loop cfg stdin s = main_loop cfg rest (log (Read raw) s).
Proof.
  intros Hr Hl.
  assert (Ht : token_loop cfg (prepare cfg raw) (prepare cfg raw)
                 (log (Read raw) s) = (Break, log (Read raw) s)).
  { rewrite token_loop_eq, Hl. destruct (prepare cfg raw); reflexivity. }
  split; [exact Ht|]. rewrite main_loop_eq, Hr, Ht. reflexivity.
Qed.

(** C7. In whitespace delimation a raw line made of ASCII whitespace only
    (the empty line is the line separator alone) yields no token: the token
    loop leaves the state as it is, so that no path is opened and no
    subprocess is spawned, and the driving loop goes on with the next raw
    read. *)
Theorem blank_line_yields_no_token cfg stdin raw rest s :
  delimation cfg = ASCII_WHITESPACE_DELIMATION ->
  read cfg stdin = Line raw rest ->
  Forall (fun c => isspace c = true) raw ->
  token_loop cfg (prepare cfg raw) (prepare cfg raw) (log (Read raw) s)
    = (Break, log (Read raw) s) /\
  main_loop cfg stdin s = main_loop cfg rest (log (Read raw) s).
Proof.
  intros Hd Hr Hb. apply main_loop_skip; [exact Hr|].
  unfold locate, prepare. rewrite Hd. apply next_word_start_blank; exact Hb.
Qed.

(** C1, as the code has it. In line and null byte delimation a raw record
    whose token is empty is not handed to the record processor: the token
    loop leaves the state as it is (no path is opened, no error is recorded,
    no subprocess is spawned) and the driving loop goes on with the next raw
    read. *)
Theorem empty_token_is_skipped cfg stdin raw rest s :
  delimation cfg <> ASCII_WHITESPACE_DELIMATION ->
  read cfg stdin = Line raw rest ->
  cstr (prepare cfg raw) = [] ->
  token_loop cfg (prepare cfg raw) (prepare cfg raw) (log (Read raw) s)
    = (Break, log (Read raw) s) /\
  main_loop cfg stdin s = main_loop cfg rest (log (Read raw) s).
Proof.
  intros Hd Hr He. apply main_loop_skip; [exact Hr|].
  apply locate_empty; assumption.
Qed.

(** ** Classification of the child's termination *)

Lemma classify_some status return_code :
  classify status = Some return_code ->
  (WIFEXITED P status = true /\ return_code = WEXITSTATUS P status) \/
  (WIFEXITED P status = false /\ WIFSIGNALED P status = true /\
   return_code = (WTERMSIG P status + 128)%Z).
Proof.
  unfold classify. intros H.
  destruct (WIFEXITED P status); [left|right].
  - injection H as <-. auto.
  - destruct (WIFSIGNALED P status); [|discriminate].
    injection H as <-. auto.
Qed.

Lemma classify_none status :
  classify status = None <->
  WIFEXITED P status = false /\ WIFSIGNALED P status = false.
Proof.
  unfold classify.
  destruct (WIFEXITED P status); [split; [discriminate|intros []; discriminate]|].
  destruct (WIFSIGNALED P status);
    [split; [discriminate|intros []; discriminate]|].
  split; auto.
Qed.

Lemma still_running_not_terminated r : still_running r <-> not_terminated r.
Proof.
  split; intros (status & Hr & H); exists status; split; auto;
    apply classify_none; exact H.
Qed.

Lemma wait_loop_answer cfg line cursor r status waits s :
  status_of r = Some status ->
  wait_loop cfg line cursor (r :: waits) s =
  match classify status with
  | Some return_code =>
      (advance cfg, emit cfg line cursor return_code (log (Wait r) s))
  | None => wait_loop cfg line cursor waits (log (Wait r) s)
  end.
Proof.
  intros Hr. destruct r; try discriminate; injection Hr as ->; reflexivity.
Qed.

Lemma wait_loop_skips cfg line cursor before : forall waits s,
  Forall not_terminated before ->
  wait_loop cfg line cursor (before ++ waits) s =
  wait_loop cfg line cursor waits
    (fold_left (fun s r => log (Wait r) s) before s).
Proof.
  induction before as [|r before IH]; intros waits s Hb; [reflexivity|].
  inversion Hb as [|? ? (status & Hr & Hc) Hb']; subst.
  simpl app. rewrite (wait_loop_answer _ _ _ _ _ _ _ Hr), Hc.
  apply IH; exact Hb'.
Qed.

Lemma wait_loop_reaps cfg line cursor r status return_code after s :
  status_of r = Some status -> classify status = Some return_code ->
  wait_loop cfg line cursor (r :: after) s =
  (advance cfg, emit cfg line cursor return_code (log (Wait r) s)).
Proof.
  intros Hr Hc. rewrite (wait_loop_answer _ _ _ _ _ _ _ Hr), Hc. reflexivity.
Qed.

Lemma wait_loop_ends cfg line cursor waits : forall s j s',
  wait_loop cfg line cursor waits s = (j, s') ->
  j <> Blocked -> j <> Quit 1 ->
  exists before r status after return_code,
    waits = before ++ r :: after /\
    Forall not_terminated before /\
    status_of r = Some status /\
    classify status = Some return_code /\
    j = advance cfg /\
    s' = emit cfg line cursor return_code
           (fold_left (fun s r => log (Wait r) s) (before ++ [r]) s).
Proof.
  induction waits as [|r waits IH]; intros s j s' H Hb Hq.
  - injection H as <- _. congruence.
  - destruct (status_of r) as [st|] eqn:Hr.
    + rewrite (wait_loop_answer _ _ _ _ _ _ _ Hr) in H.
      destruct (classify st) as [rc|] eqn:Hc.
      * injection H as <- <-.
        exists [], r, st, waits, rc. simpl. repeat split; auto.
      * destruct (IH _ _ _ H Hb Hq)
          as (before & r' & status & after & rc & -> & Hbef & Hr' & Hst & Hj
              & Hs).
        exists (r :: before), r', status, after, rc. simpl.
        repeat split; auto.
        constructor; [exists st; auto|exact Hbef].
    + destruct r; try discriminate. injection H as <- _. congruence.
Qed.

(** C5. The wait loop classifies the status that [wait] returns for a
    child.  After statuses that say neither that a child exited nor that a
    signal terminated it, a status that says that the child exited ends the
    loop with the exit code of the child as the return code that decides
    about the output; a status that says that a signal terminated it ends
    the loop with 128 plus the number of the signal; on any other status
    the loop waits again.  And the loop ends with a child reaped in no other
    way. *)
Theorem reaped_child_is_classified cfg line cursor before r status after s :
  Forall still_running before ->
  status_of r = Some status ->
  let waits := before ++ r :: after in
  let s1 := fold_left (fun s r => log (Wait r) s) (before ++ [r]) s in
  (WIFEXITED P status = true ->
   wait_loop cfg line cursor waits s =
     (advance cfg, emit cfg line cursor (WEXITSTATUS P status) s1)) /\
  (WIFEXITED P status = false -> WIFSIGNALED P status = true ->
   wait_loop cfg line cursor waits s =
     (advance cfg, emit cfg line cursor (WTERMSIG P status + 128)%Z s1)) /\
  (WIFEXITED P status = false -> WIFSIGNALED P status = false ->
   wait_loop cfg line cursor waits s = wait_loop cfg line cursor after s1) /\
  (forall waits0 s0 j s',
     wait_loop cfg line cursor waits0 s0 = (j, s') ->
     j <> Blocked -> j <> Quit 1 ->
     exists before0 r0 status0 after0 return_code,
       waits0 = before0 ++ r0 :: after0 /\
       Forall still_running before0 /\
       status_of r0 = Some status0 /\
       ((WIFEXITED P status0 = true /\
         return_code = WEXITSTATUS P status0) \/
        (WIFEXITED P status0 = false /\ WIFSIGNALED P status0 = true /\
         return_code = (WTERMSIG P status0 + 128)%Z)) /\
       j = advance cfg /\
       s' = emit cfg line cursor return_code
              (fold_left (fun s r => log (Wait r) s) (before0 ++ [r0]) s0)).
Proof.
  intros Hbefore Hr waits s1.
  assert (Hb : Forall not_terminated before).
  { revert Hbefore. apply Forall_impl. intros a.
    apply still_running_not_terminated. }
  assert (Hs1 : s1 = log (Wait r)
                       (fold_left (fun s r => log (Wait r) s) before s)).
  { unfold s1. rewrite fold_left_app. reflexivity. }
  unfold waits. rewrite (wait_loop_skips cfg line cursor before _ s Hb), Hs1.
  repeat split.
  - intros He. apply (wait_loop_reaps _ _ _ _ status); [exact Hr|].
    unfold classify. rewrite He. reflexivity.
  - intros He Hg. apply (wait_loop_reaps _ _ _ _ status); [exact Hr|].
    unfold classify. rewrite He, Hg. reflexivity.
  - intros He Hg.
    assert (Hc : classify status = None) by (apply classify_none; auto).
    rewrite (wait_loop_answer _ _ _ _ _ _ _ Hr), Hc. reflexivity.
  - intros waits0 s0 j s' H Hj1 Hj2.
    destruct (wait_loop_ends _ _ _ _ _ _ _ H Hj1 Hj2)
      as (before0 & r0 & status0 & after0 & rc & -> & Hbef & Hr0 & Hc & Hj
          & Hs).
    exists before0, r0, status0, after0, rc.
    repeat split; auto using classify_some.
    revert Hbef. apply Forall_impl. intros a.
    apply still_running_not_terminated.
Qed.

(** ** The events of one token

    What [wait_loop] and [query] add to the trace, case by case. *)

Ltac state_eq :=
  unfold perror, flag_non_fatal, log, tick; simpl;
  rewrite ?orb_true_r, ?orb_false_r, <- ?app_assoc; reflexivity.

(** The answer of [wait] that carries a status is one of two. *)
Ltac answered :=
  match goal with
  | H : status_of ?r = Some _ |- _ =>
      destruct r; try discriminate H; simpl in H; injection H as H;
      try subst
  end.

Lemma logs_state delta s :
  logs delta s = {| non_fatal_errors := non_fatal_errors s;
                    opens := opens s;
                    trace := trace s ++ delta |}.
Proof.
  revert s; induction delta as [|e delta IH]; intros s; simpl.
  - rewrite app_nil_r. destruct s; reflexivity.
  - unfold logs in IH. rewrite IH. simpl. rewrite <- app_assoc. reflexivity.
Qed.

Lemma wait_loop_shape cfg line cursor waits : forall s,
  exists w,
    wait_shape cfg line cursor waits
      (fst (wait_loop cfg line cursor waits s)) w /\
    snd (wait_loop cfg line cursor waits s) = logs w s.
Proof.
  revert waits.
  assert (Hstep : forall r status waits s,
            status_of r = Some status ->
            (forall s, exists w,
               wait_shape cfg line cursor waits
                 (fst (wait_loop cfg line cursor waits s)) w /\
               snd (wait_loop cfg line cursor waits s) = logs w s) ->
            exists w,
              wait_shape cfg line cursor (r :: waits)
                (fst (wait_loop cfg line cursor (r :: waits) s)) w /\
              snd (wait_loop cfg line cursor (r :: waits) s) = logs w s).
  { intros r status waits s Hr IH.
    destruct (classify status) as [rc|] eqn:Hc.
    - rewrite (wait_loop_reaps _ _ _ _ _ _ _ _ Hr Hc). simpl.
      exists (Wait r :: emission cfg line cursor rc).
      split; [apply (ws_reaped cfg line cursor _ [] r waits status rc);
              [reflexivity|constructor|exact Hr|exact Hc]|].
      unfold emit, emission. simpl.
      destruct (display cfg rc); [|reflexivity].
      destruct (delimation cfg); reflexivity.
    - assert (Hn : not_terminated r) by (exists status; auto).
      assert (Hgo : wait_loop cfg line cursor (r :: waits) s =
                    wait_loop cfg line cursor waits (log (Wait r) s)).
      { rewrite (wait_loop_answer _ _ _ _ _ _ _ Hr), Hc. reflexivity. }
      rewrite Hgo.
      destruct (IH (log (Wait r) s)) as (w & Hw & Hs).
      exists (Wait r :: w). split; [|exact Hs].
      inversion Hw; subst.
      + apply (ws_blocked cfg line cursor (r :: waits)).
        constructor; assumption.
      + apply (ws_failed cfg line cursor _ (r :: before) e after);
          [reflexivity|constructor; assumption].
      + apply (ws_reaped cfg line cursor _ (r :: before) r0 after status0
                 return_code);
          [reflexivity|constructor; assumption|assumption|assumption]. }
  intros waits.
  induction waits as [|[e|status|status|status] waits IH]; intros s.
  - exists []. split; [apply (ws_blocked cfg line cursor []); constructor
                      |reflexivity].
  - exists [Wait (WaitErr e); Stderr (bytes "wait") e].
    split; [apply (ws_failed cfg line cursor _ [] e waits);
            [reflexivity|constructor]|reflexivity].
  - apply (Hstep _ status); [reflexivity|exact IH].
  - apply (Hstep _ status); [reflexivity|exact IH].
  - apply (Hstep _ status); [reflexivity|exact IH].
Qed.

Lemma query_shape_of cfg line cursor s :
  exists flagged delta,
    query_shape cfg line cursor (os (opens s) (cstr cursor))
      (fst (query cfg line cursor s)) flagged delta /\
    snd (query cfg line cursor s) =
      {| non_fatal_errors := non_fatal_errors s || flagged;
         opens := S (opens s);
         trace := trace s ++ delta |}.
Proof.
  unfold query. set (sys := os (opens s) (cstr cursor)).
  destruct (sys_open sys) as [e|fd|] eqn:Ho.
  { exists true, [Open (cstr cursor) (OpenErr e); Stderr (cstr cursor) e].
    split; [constructor; exact Ho|]. state_eq. }
  2: { exists false, [Open (cstr cursor) OpenBlocks].
       split; [apply qs_open_blocks; exact Ho|]. state_eq. }
  destruct (sys_fstat sys) as [e|st_mode] eqn:Hf.
  { eexists false, _. split; [eapply qs_fstat_fails; eassumption|]. state_eq. }
  destruct (S_ISDIR P st_mode) eqn:Hd.
  { eexists true, _. split; [eapply qs_directory; eassumption|]. state_eq. }
  destruct (sys_setenv sys) as [e|] eqn:He.
  { eexists false, _. split; [eapply qs_setenv_fails; eassumption|]. state_eq. }
  destruct (sys_fork sys) as [e|] eqn:Hk.
  { eexists false, _. split; [eapply qs_fork_fails; eassumption|]. state_eq. }
  unfold parent.
  destruct (sys_child sys) as [call e|e [|]|e|] eqn:Hc.
  2, 3: eexists false, _;
    (split; [eapply qs_exec_fails; eassumption|]); state_eq.
  all: match goal with
       | |- context [wait_loop ?c ?l ?p ?ws ?s0] =>
           destruct (wait_loop_shape c l p ws s0) as (w & Hw & Hs)
       end;
    eexists false, _;
    (split; [eapply qs_waited; try eassumption; rewrite ?Hc; congruence|]);
    rewrite Hs, logs_state, Hc;
    try match goal with c : dup2_call |- _ => destruct c end; state_eq.
Qed.

(** ** Events that end the run *)

Lemma advance_cases cfg : advance cfg = NextWord \/ advance cfg = Break.
Proof. unfold advance; destruct (delimation cfg); auto. Qed.

Lemma existsb_waits (bad : event -> bool) before :
  (forall status, bad (Wait (WaitPid status)) = false) ->
  (forall status, bad (Wait (WaitEarlier status)) = false) ->
  (forall status, bad (Wait (WaitInherited status)) = false) ->
  Forall not_terminated before ->
  existsb bad (map Wait before) = false.
Proof.
  intros Hb Hb' Hb''.
  induction 1 as [|r before (status & Hr & _) _ IH]; simpl; [reflexivity|].
  destruct r; try discriminate; rewrite ?Hb, ?Hb', ?Hb''; exact IH.
Qed.

Section Fatal.

Variable bad : event -> bool.
Variable cfg : config.

Hypothesis bad_read : forall raw, bad (Read raw) = false.
Hypothesis bad_stderr : forall subject e, bad (Stderr subject e) = false.
Hypothesis bad_quits : forall line cursor sys j flagged delta,
  query_shape cfg line cursor sys j flagged delta ->
  existsb bad delta = true -> j = Quit 1.

Lemma bad_event_ends_run stdin s :
  existsb bad (trace s) = false ->
  existsb bad (trace (final_state (main_loop cfg stdin s))) = true ->
  ended_by bad cfg (main_loop cfg stdin s).
Proof.
  revert s.
  apply (main_loop_rule cfg
    (fun s => existsb bad (trace s) = false)
    (fun _ s => existsb bad (trace s) = false)
    (fun o => existsb bad (trace (final_state o)) = true ->
              ended_by bad cfg o)).
  - intros raw s Hs. simpl. rewrite existsb_app, Hs. simpl.
    rewrite bad_read. reflexivity.
  - auto.
  - intros raw word s Hs _.
    destruct (query_shape_of cfg (prepare cfg raw) word s)
      as (flagged & delta & Hshape & Hstate).
    destruct (query cfg (prepare cfg raw) word s) as [j s']. simpl in *.
    subst s'.
    assert (Hcase : existsb bad delta = true ->
              j = Quit 1 /\
              ended_by bad cfg (Exit 1
                {| non_fatal_errors := non_fatal_errors s || flagged;
                   opens := S (opens s);
                   trace := trace s ++ delta |})).
    { intros Hd. pose proof (bad_quits _ _ _ _ _ _ Hshape Hd) as ->.
      split; [reflexivity|].
      exists s, (prepare cfg raw), word, flagged, delta. auto. }
    destruct (existsb bad delta) eqn:Hd.
    + destruct (Hcase eq_refl) as [-> He]. intros _. exact He.
    + destruct j; simpl; rewrite existsb_app, Hs, Hd; simpl;
        try reflexivity; discriminate.
  - intros s Hs. simpl. congruence.
  - intros e s Hs. simpl. rewrite existsb_app, Hs. simpl.
    rewrite bad_stderr. discriminate.
Qed.

End Fatal.

(** ** A failing [fstat] *)

Lemma existsb_child (bad : event -> bool) cfg fate :
  (forall to subject e, bad (ChildStderr to subject e) = false) ->
  (forall argv, bad (ChildExec argv) = false) ->
  (forall signal, bad (ChildKillPending signal) = false) ->
  bad ChildFlush = false ->
  (forall e at_, fate <> ExecFails e at_) ->
  existsb bad (child cfg fate) = false.
Proof.
  intros H1 H2 H3 H4 H5. destruct fate as [[| |] e|e at_|e|]; simpl.
  - rewrite H1, H4; reflexivity.
  - rewrite H1, H4; reflexivity.
  - rewrite H1; reflexivity.
  - destruct (H5 e at_); reflexivity.
  - rewrite H1, H3; reflexivity.
  - rewrite H2; reflexivity.
Qed.

Lemma existsb_emission (bad : event -> bool) cfg line cursor rc :
  (forall b, bad (Stdout b) = false) ->
  existsb bad (emission cfg line cursor rc) = false.
Proof.
  intros H. unfold emission.
  destruct (display cfg rc); [|reflexivity].
  destruct (delimation cfg); simpl; rewrite H; reflexivity.
Qed.

Lemma existsb_In (bad : event -> bool) e tr :
  In e tr -> bad e = true -> existsb bad tr = true.
Proof. intros; apply existsb_exists; eauto. Qed.

Lemma existsb_waited (bad : event -> bool) cfg line cursor waits j w :
  (forall r, bad (Wait r) = false) ->
  (forall subject e, bad (Stderr subject e) = false) ->
  (forall b, bad (Stdout b) = false) ->
  wait_shape cfg line cursor waits j w -> existsb bad w = false.
Proof.
  intros H1 H2 H3 Hw.
  assert (Hm : forall rs, existsb bad (map Wait rs) = false)
    by (induction rs; simpl; rewrite ?H1; auto).
  inversion Hw; subst; rewrite ?existsb_app, ?Hm; simpl;
    rewrite ?H1, ?H2, ?existsb_emission; auto.
Qed.

Lemma fstat_failed_shape cfg line cursor sys j flagged delta :
  query_shape cfg line cursor sys j flagged delta ->
  existsb fstat_failed delta = true ->
  exists fd e,
    j = Quit 1 /\ flagged = false /\
    delta = [Open (cstr cursor) (OpenFd fd); Fstat (FstatErr e);
             Stderr (cstr cursor) e] /\
    sys_open sys = OpenFd fd /\ sys_fstat sys = FstatErr e.
Proof.
  intros Hshape; inversion Hshape; subst; simpl; try discriminate.
  - intros _. eauto 10.
  - match goal with
    | |- context [match ?d with BeforeClose => _ | DuringWait => _ end] =>
        destruct d
    end; discriminate.
  - rewrite existsb_app, existsb_child by (auto; reflexivity). simpl.
    erewrite existsb_waited by (eauto; reflexivity). discriminate.
Qed.

(** C10. Whenever [fstat] fails on a path that was opened, the program ends
    there with exit status 1: the last events of the run are the successful
    [open] of the token's path, the failing [fstat] and a diagnostic that
    names the path; the failure does not set the non-fatal flag and no other
    token follows. *)
Theorem fstat_failure_is_fatal cfg stdin e :
  In (Fstat (FstatErr e)) (trace (final_state (main cfg stdin))) ->
  exists s path fd,
    main cfg stdin =
      Exit 1 {| non_fatal_errors := non_fatal_errors s;
                opens := S (opens s);
                trace := trace s ++ [Open path (OpenFd fd);
                                     Fstat (FstatErr e);
                                     Stderr path e] |} /\
    sys_open (os (opens s) path) = OpenFd fd /\
    sys_fstat (os (opens s) path) = FstatErr e.
Proof.
  intros Hin.
  pose proof (existsb_In fstat_failed _ _ Hin eq_refl) as Hbad.
  apply (bad_event_ends_run fstat_failed cfg) in Hbad; try reflexivity.
  2: { intros line cursor sys j flagged delta Hshape Hd.
       destruct (fstat_failed_shape _ _ _ _ _ _ _ Hshape Hd)
         as (? & ? & ? & _); assumption. }
  destruct Hbad as (s & line & cursor & flagged & delta & Hmain & Hshape
                    & Hdelta & Hs).
  destruct (fstat_failed_shape _ _ _ _ _ _ _ Hshape Hdelta)
    as (fd & e' & _ & -> & -> & Hopen & Hfstat).
  unfold main in *. rewrite Hmain in Hin. simpl in Hin.
  apply in_app_or in Hin as [Hin|Hin].
  { pose proof (existsb_In fstat_failed _ _ Hin eq_refl). congruence. }
  destruct Hin as [Hx|[Hx|[Hx|[]]]]; try discriminate.
  injection Hx as ->.
  exists s, (cstr cursor), fd. rewrite Hmain, orb_false_r. auto.
Qed.

(** ** A failing [wait] *)

Lemma wait_failed_shape cfg line cursor sys j flagged delta :
  query_shape cfg line cursor sys j flagged delta ->
  existsb wait_failed delta = true ->
  exists before e,
    j = Quit 1 /\ flagged = false /\
    delta = before ++ [Wait (WaitErr e); Stderr (bytes "wait") e] /\
    existsb wait_failed before = false.
Proof.
  intros Hshape; inversion Hshape; subst; simpl; try discriminate.
  - match goal with
    | |- context [match ?d with BeforeClose => _ | DuringWait => _ end] =>
        destruct d
    end; discriminate.
  - rewrite existsb_app, existsb_child by (auto; reflexivity). simpl.
    match goal with H : wait_shape _ _ _ _ _ _ |- _ => inversion H; subst end.
    + rewrite existsb_waits by (auto; reflexivity). discriminate.
    + intros _.
      match goal with
      | |- context [?a :: ?b :: ?c :: ?d :: ?ch ++ Close :: map Wait ?rs
                      ++ [Wait (WaitErr ?e); _]] =>
          exists (a :: b :: c :: d :: ch ++ Close :: map Wait rs), e
      end.
      repeat split.
      * simpl. rewrite <- app_assoc. reflexivity.
      * simpl. rewrite existsb_app, existsb_child by (auto; reflexivity).
        simpl. apply existsb_waits; auto.
    + rewrite existsb_app, existsb_waits by (auto; reflexivity).
      answered; simpl; rewrite existsb_emission by reflexivity;
        discriminate.
Qed.

(** C8, as the code has it. Whenever [wait] fails, whatever its [errno]
    (being interrupted included), the program reports the failure and ends
    there with exit status 1: the failing [wait] and its diagnostic are the
    last events of the run. *)
Theorem wait_failure_is_fatal cfg stdin e :
  In (Wait (WaitErr e)) (trace (final_state (main cfg stdin))) ->
  exists s before,
    main cfg stdin =
      Exit 1 {| non_fatal_errors := non_fatal_errors s;
                opens := opens s;
                trace := before ++ [Wait (WaitErr e);
                                    Stderr (bytes "wait") e] |} /\
    ~ In (Wait (WaitErr e)) before.
Proof.
  intros Hin.
  pose proof (existsb_In wait_failed _ _ Hin eq_refl) as Hbad.
  apply (bad_event_ends_run wait_failed cfg) in Hbad; try reflexivity.
  2: { intros line cursor sys j flagged delta Hshape Hd.
       destruct (wait_failed_shape _ _ _ _ _ _ _ Hshape Hd)
         as (? & ? & ? & _); assumption. }
  destruct Hbad as (s & line & cursor & flagged & delta & Hmain & Hshape
                    & Hdelta & Hs).
  destruct (wait_failed_shape _ _ _ _ _ _ _ Hshape Hdelta)
    as (before & e' & _ & -> & -> & Hbefore).
  assert (Hnot : ~ In (Wait (WaitErr e)) (trace s ++ before)).
  { intros Hx. apply in_app_or in Hx as [Hx|Hx];
      pose proof (existsb_In wait_failed _ _ Hx eq_refl); congruence. }
  unfold main in *. rewrite Hmain in Hin. simpl in Hin.
  rewrite app_assoc in Hin.
  apply in_app_or in Hin as [Hin|Hin]; [contradiction|].
  destruct Hin as [Hx|[Hx|[]]]; try discriminate.
  injection Hx as ->.
  exists {| non_fatal_errors := non_fatal_errors s;
            opens := S (opens s); trace := trace s |}, (trace s ++ before).
  rewrite Hmain, orb_false_r, app_assoc. auto.
Qed.

(** ** A command that cannot be executed *)

Lemma notified_shape cfg line cursor sys j flagged delta :
  query_shape cfg line cursor sys j flagged delta ->
  existsb notified delta = true ->
  exists fd st_mode e at_,
    j = Quit 1 /\ flagged = false /\
    delta = [Open (cstr cursor) (OpenFd fd); Fstat (FstatOk st_mode);
             Setenv (cstr cursor)] ++ launch_failure cfg e at_ /\
    sys_child sys = ExecFails e at_.
Proof.
  intros Hshape; inversion Hshape; subst; simpl; try discriminate.
  - intros _. do 4 eexists. repeat split; try reflexivity; eassumption.
  - rewrite existsb_app, existsb_child by (auto; reflexivity). simpl.
    erewrite existsb_waited by (eauto; reflexivity). discriminate.
Qed.

Lemma stdout_of_app tr tr' :
  stdout_of (tr ++ tr') = stdout_of tr ++ stdout_of tr'.
Proof. apply flat_map_app. Qed.

(** C4. When [execvp] fails in the child of a token, the child writes a
    diagnostic that names the executable to its error stream and sends
    [SIGUSR1] to the parent, and the parent, on receiving it, ends with exit
    status 1, whatever input remains: nothing is written to standard output
    any more.  The first part is for the first token of the next raw record,
    the second for wherever the notification occurs in a run. *)
Theorem exec_failure_is_fatal cfg stdin s raw rest word fd st_mode e at_ :
  read cfg stdin = Line raw rest ->
  locate cfg (prepare cfg raw) = Some word ->
  sys_open (os (opens s) (cstr word)) = OpenFd fd ->
  sys_fstat (os (opens s) (cstr word)) = FstatOk st_mode ->
  S_ISDIR P st_mode = false ->
  sys_setenv (os (opens s) (cstr word)) = None ->
  sys_fork (os (opens s) (cstr word)) = None ->
  sys_child (os (opens s) (cstr word)) = ExecFails e at_ ->
  main_loop cfg stdin s =
    Exit 1 {| non_fatal_errors := non_fatal_errors s;
              opens := S (opens s);
              trace := trace s ++
                [Read raw; Open (cstr word) (OpenFd fd);
                 Fstat (FstatOk st_mode); Setenv (cstr word)]
                ++ launch_failure cfg e at_ |} /\
  forall stdin' signal,
    In (ChildKill signal) (trace (final_state (main cfg stdin'))) ->
    exists s' path fd' st_mode' e' at',
      main cfg stdin' =
        Exit 1 {| non_fatal_errors := non_fatal_errors s';
                  opens := S (opens s');
                  trace := trace s' ++
                    [Open path (OpenFd fd'); Fstat (FstatOk st_mode');
                     Setenv path] ++ launch_failure cfg e' at' |} /\
      signal = SIGUSR1_name /\
      sys_child (os (opens s') path) = ExecFails e' at' /\
      stdout_of (trace (final_state (main cfg stdin'))) = stdout_of (trace s').
Proof.
  intros Hr Hl Ho Hf Hd He Hk Hc. split.
  - rewrite main_loop_eq, Hr, token_loop_eq, Hl.
    assert (Hq : query cfg (prepare cfg raw) word (log (Read raw) s) =
      (Quit 1,
       {| non_fatal_errors := non_fatal_errors s;
          opens := S (opens s);
          trace := trace s ++
            [Read raw; Open (cstr word) (OpenFd fd);
             Fstat (FstatOk st_mode); Setenv (cstr word)]
            ++ launch_failure cfg e at_ |})).
    { unfold query, parent. simpl opens.
      rewrite Ho, Hf, Hd, He, Hk, Hc.
      destruct at_; simpl; unfold sigusr1_handler; f_equal; state_eq. }
    rewrite Hq. destruct (prepare cfg raw); [|reflexivity].
    unfold locate in Hl. destruct (delimation cfg); discriminate.
  - clear. intros stdin signal Hin.
    pose proof (existsb_In notified _ _ Hin eq_refl) as Hbad.
    apply (bad_event_ends_run notified cfg) in Hbad; try reflexivity.
    2: { intros line cursor sys j flagged delta Hshape Hd.
         destruct (notified_shape _ _ _ _ _ _ _ Hshape Hd)
           as (? & ? & ? & ? & ? & _); assumption. }
    destruct Hbad as (s & line & cursor & flagged & delta & Hmain & Hshape
                      & Hdelta & Hs).
    destruct (notified_shape _ _ _ _ _ _ _ Hshape Hdelta)
      as (fd & st_mode & e & at_ & _ & -> & -> & Hchild).
    unfold main in *. rewrite Hmain in *. simpl in Hin.
    exists s, (cstr cursor), fd, st_mode, e, at_.
    rewrite orb_false_r. repeat split; auto.
    + apply in_app_or in Hin as [Hin|Hin].
      { pose proof (existsb_In notified _ _ Hin eq_refl). congruence. }
      destruct at_; simpl in Hin;
        repeat (destruct Hin as [Hx|Hin]; [try discriminate Hx|]);
        try contradiction; injection Hx as <-; reflexivity.
    + simpl. rewrite stdout_of_app.
      destruct at_; simpl; rewrite app_nil_r; reflexivity.
Qed.

(** ** Paths that cannot be opened, and directories *)


Lemma quit_shape cfg line cursor sys status flagged delta :
  query_shape cfg line cursor sys (Quit status) flagged delta -> status = 1%Z.
Proof.
  intros Hshape; inversion Hshape; subst; try reflexivity;
    try (destruct (advance_cases cfg); congruence).
  match goal with H : wait_shape _ _ _ _ _ _ |- _ => inversion H; subst end;
    try reflexivity.
  destruct (advance_cases cfg); congruence.
Qed.




(** ** What is written to standard output *)

Lemma inner_child cfg fate : forallb inner (child cfg fate) = true.
Proof. destruct fate as [[| |] e|e at_|e|]; reflexivity. Qed.

Lemma inner_waits rs : forallb inner (map Wait rs) = true.
Proof. induction rs; simpl; auto. Qed.

Lemma query_shape_split cfg line cursor sys j flagged delta :
  query_shape cfg line cursor sys j flagged delta ->
  exists r middle out,
    delta = Open (cstr cursor) r :: middle ++ out /\
    forallb inner middle = true /\
    (out = [] \/ exists return_code,
                   out = emission cfg line cursor return_code).
Proof.
  intros Hshape; inversion Hshape; subst.
  1-5: eexists _, _, []; rewrite app_nil_r; simpl; auto.
  - eexists _, _, []. rewrite app_nil_r. simpl. split; [reflexivity|].
    split; [|auto].
    match goal with
    | |- context [match ?d with BeforeClose => _ | DuringWait => _ end] =>
        destruct d
    end; reflexivity.
  - exists (OpenFd fd).
    match goal with H : wait_shape _ _ _ _ _ _ |- _ => inversion H; subst end.
    + match goal with
      | |- context [child cfg ?f ++ Close :: map Wait ?rs] =>
          exists ([Fstat (FstatOk st_mode); Setenv (cstr cursor); Fork]
                  ++ child cfg f ++ Close :: map Wait rs), []
      end.
      rewrite app_nil_r. split; [reflexivity|]. split; [|auto].
      simpl. rewrite forallb_app, inner_child. simpl. apply inner_waits.
    + match goal with
      | |- context [child cfg ?f ++ Close :: map Wait ?rs ++ ?tl] =>
          exists ([Fstat (FstatOk st_mode); Setenv (cstr cursor); Fork]
                  ++ child cfg f ++ Close :: map Wait rs ++ tl), []
      end.
      rewrite app_nil_r. split; [reflexivity|]. split; [|auto].
      simpl. rewrite forallb_app, inner_child. simpl.
      rewrite forallb_app, inner_waits. reflexivity.
    + match goal with
      | |- context [child cfg ?f ++ Close :: map Wait ?rs ++ ?w :: ?out] =>
          exists ([Fstat (FstatOk st_mode); Setenv (cstr cursor); Fork]
                  ++ child cfg f ++ Close :: map Wait rs ++ [w]), out
      end.
      split; [|split; [|right; eauto]].
      * simpl. rewrite <- !app_assoc. simpl. rewrite <- !app_assoc.
        reflexivity.
      * simpl. rewrite forallb_app, inner_child. simpl.
        rewrite forallb_app, inner_waits. reflexivity.
  - exists OpenBlocks, [], []. simpl. auto.
Qed.



Lemma extends_app phi d1 d2 : forall tr,
  extends phi tr d1 -> extends phi (tr ++ d1) d2 -> extends phi tr (d1 ++ d2).
Proof.
  induction d1 as [|e d1 IH]; simpl; intros tr H1 H2.
  - rewrite app_nil_r in H2; exact H2.
  - destruct H1 as [He H1]. split; [exact He|].
    apply IH; [exact H1|]. rewrite <- app_assoc. exact H2.
Qed.

Lemma prepare_null_byte cfg raw :
  delimation cfg = NULL_BYTE_DELIMATION -> prepare cfg raw = raw.
Proof. unfold prepare; intros ->; reflexivity. Qed.


(** ** One child at a time *)

Lemma orderly_from_extends delta : forall tr,
  orderly_from (fold_left census tr (0, 0)) delta ->
  extends orderly tr delta.
Proof.
  induction delta as [|e delta IH]; simpl; intros tr H; [exact I|].
  destruct H as [He Hd]. split.
  - unfold orderly, children, spawned_since_open.
    destruct (fold_left census tr (0, 0)); exact He.
  - apply IH. rewrite fold_left_app. exact Hd.
Qed.

Lemma orderly_from_app d1 d2 : forall n,
  orderly_from n d1 -> orderly_from (fold_left census d1 n) d2 ->
  orderly_from n (d1 ++ d2).
Proof.
  induction d1 as [|e d1 IH]; simpl; intros n H1 H2; [exact H2|].
  destruct H1 as [He H1]. split; [exact He|]. apply IH; assumption.
Qed.

Lemma own_status r :
  own r = true -> forall status, status_of r = Some status ->
  r = WaitPid status.
Proof.
  intros Ho status Hr. destruct r; try discriminate; injection Hr as ->;
    reflexivity.
Qed.

Lemma orderly_waits before :
  Forall not_terminated before -> forallb own before = true ->
  orderly_from (1, 1) (map Wait before) /\
  fold_left census (map Wait before) (1, 1) = (1, 1).
Proof.
  induction 1 as [|r before (status & Hr & Hc) _ IH]; simpl; [auto|].
  intros Ho. apply andb_true_iff in Ho as [Ho Ho'].
  rewrite (own_status r Ho status Hr). rewrite Hc. tauto.
Qed.

Lemma orderly_child cfg fate :
  orderly_from (1, 1) (child cfg fate) /\
  fold_left census (child cfg fate) (1, 1) = (1, 1).
Proof. destruct fate as [[| |] e|e at_|e|]; simpl; auto. Qed.

Lemma orderly_emission cfg line cursor rc :
  orderly_from (0, 1) (emission cfg line cursor rc) /\
  fold_left census (emission cfg line cursor rc) (0, 1) = (0, 1).
Proof.
  unfold emission. destruct (display cfg rc); [|simpl; auto].
  destruct (delimation cfg); simpl; auto.
Qed.

Lemma orderly_waited cfg line cursor waits j w :
  wait_shape cfg line cursor waits j w ->
  forallb own waits = true ->
  orderly_from (1, 1) w /\
  fst (fold_left census w (1, 1)) <= 1 /\
  (j = NextWord \/ j = Break -> fst (fold_left census w (1, 1)) = 0).
Proof.
  intros Hw Hown;
    inversion Hw as [Hb|before e after -> Hb
                    |before r after status rc -> Hb Hr Hc];
    subst.
  - destruct (orderly_waits waits Hb Hown) as [H1 H2].
    rewrite H2. simpl. repeat split; auto. intros [|]; discriminate.
  - rewrite forallb_app in Hown. apply andb_true_iff in Hown as [Hown _].
    destruct (orderly_waits before Hb Hown) as [H1 H2].
    rewrite fold_left_app, H2. simpl. repeat split; auto.
    + apply orderly_from_app; [exact H1|]. rewrite H2. simpl. auto.
    + intros [|]; discriminate.
  - rewrite forallb_app in Hown. apply andb_true_iff in Hown as [Hown Hown'].
    simpl in Hown'. apply andb_true_iff in Hown' as [Hown' _].
    destruct (orderly_waits before Hb Hown) as [H1 H2].
    destruct (orderly_emission cfg line cursor rc) as [H3 H4].
    rewrite (own_status r Hown' status Hr).
    rewrite fold_left_app, H2. simpl. rewrite Hc. simpl. rewrite H4.
    repeat split; auto.
    apply orderly_from_app; [exact H1|]. rewrite H2. simpl.
    rewrite Hc. simpl. auto.
Qed.

Lemma orderly_query cfg line cursor sys j flagged delta k :
  query_shape cfg line cursor sys j flagged delta ->
  forallb own (sys_wait sys) = true ->
  orderly_from (0, k) delta /\
  fst (fold_left census delta (0, k)) <= 1 /\
  (j = NextWord \/ j = Break -> fst (fold_left census delta (0, k)) = 0).
Proof.
  intros Hshape Hown; inversion Hshape; subst; simpl.
  1-5: repeat split; auto; intros [|]; discriminate.
  - match goal with
    | |- context [match ?d with BeforeClose => _ | DuringWait => _ end] =>
        destruct d
    end; simpl; repeat split; auto; intros [|]; discriminate.
  - destruct (orderly_child cfg (sys_child sys)) as [Hc1 Hc2].
    match goal with
    | H : wait_shape _ _ _ _ _ _ |- _ =>
        destruct (orderly_waited _ _ _ _ _ _ H Hown) as (Hw1 & Hw2 & Hw3)
    end.
    rewrite fold_left_app, Hc2. simpl.
    repeat split; auto.
    apply orderly_from_app; [exact Hc1|]. rewrite Hc2. simpl. auto.
  - repeat split; auto; intros [|]; discriminate.
Qed.

(** X18. When [wait] only ever reports on the child of the token, as it does
    when the process has no children but those that the program forks, at
    most one child exists at every point of a run.  A subprocess is spawned
    only when no child exists and none was spawned for the token yet;
    nothing is read and no path is opened while a child exists; while one
    exists the parent only closes its descriptor of the file and waits; and
    a token is written only after the one child spawned for it was
    reaped. *)
Theorem one_child_without_other_children cfg stdin pre post :
  no_other_children ->
  trace (final_state (main cfg stdin)) = pre ++ post ->
  children pre <= 1 /\
  match post with
  | [] => True
  | Fork :: _ => children pre = 0 /\ spawned_since_open pre = 0
  | (Read _ | Open _ _ | Fstat _ | Setenv _) :: _ => children pre = 0
  | Stdout _ :: _ => children pre = 0 /\ spawned_since_open pre = 1
  | (Close | Wait _ | ChildStderr _ _ _ | ChildKill _ | ChildKillPending _
     | ChildFlush | ChildExec _) :: _ =>
      children pre = 1 /\ spawned_since_open pre = 1
  | Stderr _ _ :: _ => True
  end.
Proof.
  intros Hown Htrace.
  assert (H : always orderly (trace (final_state (main cfg stdin))) /\
              children (trace (final_state (main cfg stdin))) <= 1).
  { clear Htrace. unfold main.
    apply (main_loop_rule cfg
      (fun s => always orderly (trace s) /\ children (trace s) = 0)
      (fun _ s => always orderly (trace s) /\ children (trace s) = 0)
      (fun o => always orderly (trace (final_state o)) /\
                children (trace (final_state o)) <= 1)).
    - intros raw s [Hs Hc]. simpl. split.
      + apply always_snoc; [exact Hs|]. exact Hc.
      + unfold children in *. rewrite fold_left_app. simpl. exact Hc.
    - auto.
    - intros raw word s [Hs Hc] _.
      destruct (query_shape_of cfg (prepare cfg raw) word s)
        as (flagged & delta & Hshape & Hstate).
      destruct (query cfg (prepare cfg raw) word s) as [j s']. simpl in *.
      subst s'. unfold children in *.
      destruct (fold_left census (trace s) (0, 0)) as [n k] eqn:Hn.
      simpl in Hc. subst n.
      destruct (orderly_query _ _ _ _ _ _ _ k Hshape (Hown _ _))
        as (H1 & H2 & H3).
      assert (Hall : always orderly (trace s ++ delta)).
      { apply always_extends; [exact Hs|].
        apply orderly_from_extends. rewrite Hn. exact H1. }
      destruct j; simpl; rewrite fold_left_app, Hn; auto.
    - intros s [Hs Hc]. simpl. split; [exact Hs|lia].
    - intros e s [Hs Hc]. simpl. split.
      + apply always_snoc; [exact Hs|]. unfold orderly. simpl. lia.
      + unfold children in *. rewrite fold_left_app. simpl. lia.
    - split; [apply always_nil|reflexivity]. }
  destruct H as [Hall Hfinal].
  destruct post as [|e post].
  - rewrite app_nil_r in Htrace. subst pre. auto.
  - specialize (Hall _ _ _ Htrace). unfold orderly in Hall.
    destruct e; simpl in Hall; split; try lia; auto.
Qed.

(** ** The polarity of the output *)








Lemma judge_waits before : forall st,
  Forall not_terminated before ->
  fold_left judge (map Wait before) st = st.
Proof.
  induction before as [|r before IH]; intros st H; [reflexivity|].
  inversion H as [|? ? (status & Hr & Hc) Hb]; subst. simpl.
  destruct r; try discriminate; injection Hr as ->; rewrite Hc;
    apply IH; exact Hb.
Qed.

Lemma judge_child cfg fate st : fold_left judge (child cfg fate) st = st.
Proof. destruct fate as [[| |] e|e at_|e|]; reflexivity. Qed.

Lemma judge_query cfg line cursor sys j flagged delta p acc :
  query_shape cfg line cursor sys j flagged delta ->
  snd (fold_left judge delta (p, acc)) = acc \/
  exists return_code,
    snd (fold_left judge delta (p, acc)) =
      mkVerdict (cstr cursor) return_code (display cfg return_code) :: acc.
Proof.
  intros Hshape; inversion Hshape; subst.
  1-5: left; reflexivity.
  - left. match goal with
    | |- context [match ?d with BeforeClose => _ | DuringWait => _ end] =>
        destruct d
    end; reflexivity.
  - rewrite fold_left_app. simpl. rewrite fold_left_app, judge_child. simpl.
    match goal with H : wait_shape _ _ _ _ _ _ |- _ => inversion H; subst end.
    + left. rewrite judge_waits by assumption. reflexivity.
    + left. rewrite fold_left_app, judge_waits by assumption. reflexivity.
    + right. exists return_code.
      rewrite fold_left_app, judge_waits by assumption.
      answered; simpl;
        match goal with H : classify _ = Some _ |- _ => rewrite H end;
        unfold emission; (destruct (display cfg return_code); [|reflexivity]);
        destruct (delimation cfg); reflexivity.
  - left. reflexivity.
Qed.

(** * More properties of the driving loop *)

(** ** A proof rule that follows the input and the cursor

    [I stdin] holds between raw reads with [stdin] left to read, [K raw rest
    cursor] at the head of the token loop, and [Q] of the way the program
    ends. *)

Section Rule_io.

Variable cfg : config.
Variable I : FILE -> state -> Prop.
Variable K : list byte -> FILE -> list byte -> state -> Prop.
Variable Q : outcome -> Prop.

Hypothesis enter : forall stdin raw rest s,
  I stdin s -> read cfg stdin = Line raw rest ->
  K raw rest (prepare cfg raw) (log (Read raw) s).
Hypothesis no_token : forall raw rest cursor s,
  K raw rest cursor s -> cursor = [] \/ locate cfg cursor = None ->
  I rest s.
Hypothesis token : forall raw rest cursor word s,
  K raw rest cursor s -> locate cfg cursor = Some word ->
  match query cfg (prepare cfg raw) word s with
  | (NextWord, s') => K raw rest (word_end word) s'
  | (Break, s') => I rest s'
  | (Quit status, s') => Q (Exit status s')
  | (Blocked, s') => Q (Hang s')
  end.
Hypothesis at_eof : forall stdin s,
  I stdin s -> read cfg stdin = AtEOF ->
  Q (Exit (if non_fatal_errors s then 2 else 0) s).
Hypothesis at_error : forall stdin e s,
  I stdin s -> read cfg stdin = ReadErr e ->
  Q (Exit 1 (perror (getline_function cfg) e s)).

Lemma token_loop_rule_io raw rest cursor : forall s,
  K raw rest cursor s ->
  match token_loop cfg (prepare cfg raw) cursor s with
  | (Quit status, s') => Q (Exit status s')
  | (Blocked, s') => Q (Hang s')
  | (_, s') => I rest s'
  end.
Proof.
  induction cursor as [cursor IH] using (induction_ltof1 _ (@length byte)).
  intros s Hs. rewrite token_loop_eq.
  destruct cursor as [|c cur]; [apply (no_token raw rest [] s); auto|].
  destruct (locate cfg (c :: cur)) as [word|] eqn:Hw;
    [|apply (no_token raw rest (c :: cur) s); auto].
  pose proof (token raw rest (c :: cur) word s Hs Hw) as Ht.
  apply locate_some in Hw as [_ Hlt].
  destruct (query cfg (prepare cfg raw) word s) as [[| | |] s'];
    try exact Ht.
  apply IH; [exact Hlt|exact Ht].
Qed.

Lemma main_loop_rule_io stdin : forall s,
  I stdin s -> Q (main_loop cfg stdin s).
Proof.
  induction stdin as [stdin IH]
    using (induction_ltof1 _ (fun f => length (pending f))).
  intros s Hs. rewrite main_loop_eq.
  destruct (read cfg stdin) as [|e|raw rest] eqn:Hr;
    [apply (at_eof stdin); auto|apply (at_error stdin); auto|].
  pose proof (token_loop_rule_io raw rest (prepare cfg raw) _
                (enter stdin raw rest s Hs Hr)) as Ht.
  apply read_line in Hr.
  destruct (token_loop _ _ _ _) as [[| | |] s'];
    try exact Ht; apply IH; try exact Hr; exact Ht.
Qed.

End Rule_io.

(** ** The input is read in order, and to its end *)

Lemma getdelim_app d l : fst (getdelim d l) ++ snd (getdelim d l) = l.
Proof.
  induction l as [|b l IH]; simpl; [reflexivity|].
  destruct (Byte.eqb b d); simpl; [reflexivity|].
  destruct (getdelim d l) as [r t]; simpl in *. rewrite IH. reflexivity.
Qed.

Lemma read_app cfg stdin raw rest :
  read cfg stdin = Line raw rest ->
  pending stdin = raw ++ pending rest /\ failure rest = failure stdin.
Proof.
  unfold read. destruct (pending stdin) as [|c l] eqn:Hp.
  - destruct (failure stdin); discriminate.
  - set (d := match delimation cfg with
              | NULL_BYTE_DELIMATION => x00 | _ => x0a end).
    pose proof (getdelim_app d (c :: l)) as H.
    destruct (getdelim d (c :: l)) as [r t]. intros E. injection E as <- <-.
    simpl in *. auto.
Qed.

Lemma reads_app tr tr' : reads (tr ++ tr') = reads tr ++ reads tr'.
Proof. apply flat_map_app. Qed.

Lemma reads_inner middle : forallb inner middle = true -> reads middle = [].
Proof.
  induction middle as [|e middle IH]; simpl; intros H; [reflexivity|].
  apply andb_true_iff in H as [He Hm]. rewrite (IH Hm).
  destruct e; try discriminate; reflexivity.
Qed.

Lemma reads_query cfg line cursor sys j flagged delta :
  query_shape cfg line cursor sys j flagged delta -> reads delta = [].
Proof.
  intros Hshape. apply query_shape_split in Hshape
    as (r & middle & out & -> & Hmiddle & Hout).
  simpl. rewrite reads_app, (reads_inner _ Hmiddle). simpl.
  destruct Hout as [->|(rc & ->)]; [reflexivity|].
  unfold emission. destruct (display cfg rc); [|reflexivity].
  destruct (delimation cfg); reflexivity.
Qed.

(** X1. What the program reads is a prefix of its input, byte for byte and
    in order, and when it ends with an exit status other than 1 it has read
    all of it. *)
Theorem input_is_read_in_order cfg stdin :
  (exists unread,
     pending stdin =
       reads (trace (final_state (main cfg stdin))) ++ unread) /\
  (forall status s,
     main cfg stdin = Exit status s -> status <> 1%Z ->
     reads (trace s) = pending stdin).
Proof.
  unfold main.
  apply (main_loop_rule_io cfg
    (fun rest s => reads (trace s) ++ pending rest = pending stdin)
    (fun _ rest _ s => reads (trace s) ++ pending rest = pending stdin)
    (fun o => (exists unread,
                 pending stdin = reads (trace (final_state o)) ++ unread) /\
              (forall status s, o = Exit status s -> status <> 1%Z ->
                 reads (trace s) = pending stdin))).
  - intros stdin' raw rest s Hs Hr. apply read_app in Hr as [Hr _].
    simpl. rewrite reads_app. simpl. rewrite app_nil_r, <- app_assoc, <- Hr.
    exact Hs.
  - auto.
  - intros raw rest cursor word s Hs _.
    destruct (query_shape_of cfg (prepare cfg raw) word s)
      as (flagged & delta & Hshape & Hstate).
    destruct (query cfg (prepare cfg raw) word s) as [j s']. simpl in *.
    subst s'.
    assert (Hsame : reads (trace s ++ delta) = reads (trace s)).
    { rewrite reads_app, (reads_query _ _ _ _ _ _ _ Hshape).
      apply app_nil_r. }
    destruct j; simpl; rewrite ?Hsame; try exact Hs.
    + split; [exists (pending rest); auto|].
      intros status' s' Hx Hne. injection Hx as <- _.
      apply quit_shape in Hshape. contradiction.
    + split; [exists (pending rest); auto|discriminate].
  - intros stdin' s Hs Hr. simpl.
    assert (Hp : pending stdin' = []).
    { unfold read in Hr. destruct (pending stdin'); [reflexivity|].
      destruct (getdelim _ _); discriminate. }
    rewrite Hp, app_nil_r in Hs. split.
    + exists []. rewrite app_nil_r. auto.
    + intros status s' Hx _. injection Hx as _ <-. exact Hs.
  - intros stdin' e s Hs Hr. simpl. split.
    + exists (pending stdin'). rewrite reads_app. simpl.
      rewrite app_nil_r. auto.
    + intros status s' Hx Hne. injection Hx as <- _. congruence.
  - reflexivity.
Qed.

(** ** A read error *)

(** X2. When standard input ends in a read error, the program never takes
    it for the end of the input: if it ends at all, the exit status is 1. *)
Theorem read_error_is_fatal cfg stdin e status s :
  failure stdin = Some e ->
  main cfg stdin = Exit status s -> status = 1%Z.
Proof.
  intros Hf. unfold main. revert status s.
  assert (H : (fun o => forall status s, o = Exit status s -> status = 1%Z)
              (main_loop cfg stdin initial)); [|exact H].
  apply (main_loop_rule_io cfg
    (fun rest _ => failure rest = Some e)
    (fun _ rest _ _ => failure rest = Some e)).
  - intros stdin' raw rest s Hs Hr. apply read_app in Hr as [_ Hr].
    congruence.
  - auto.
  - intros raw rest cursor word s Hs _.
    destruct (query_shape_of cfg (prepare cfg raw) word s)
      as (flagged & delta & Hshape & Hstate).
    destruct (query cfg (prepare cfg raw) word s) as [j s']. simpl in *.
    destruct j; try exact Hs.
    + intros status' s'' Hx. injection Hx as <- _.
      apply quit_shape in Hshape. exact Hshape.
    + discriminate.
  - intros stdin' s Hs Hr. unfold read in Hr. rewrite Hs in Hr.
    destruct (pending stdin'); [discriminate|].
    destruct (getdelim _ _); discriminate.
  - intros stdin' e' s _ _ status s' Hx. injection Hx as <- _. reflexivity.
  - exact Hf.
Qed.

(** ** The exit status *)




(** ** The paths that are opened *)

Lemma is_nul_true c : is_nul c = true <-> c = x00.
Proof.
  unfold is_nul. split; [apply Byte.byte_dec_bl|apply Byte.byte_dec_lb].
Qed.

Lemma is_nul_false c : is_nul c = false <-> c <> x00.
Proof.
  rewrite <- is_nul_true. destruct (is_nul c); split; congruence.
Qed.

Lemma cstr_incl cursor c : In c (cstr cursor) -> In c cursor /\ c <> x00.
Proof.
  induction cursor as [|b cursor IH]; simpl; [tauto|].
  destruct (is_nul b) eqn:Hb; simpl; [tauto|].
  intros [<-|H]; [split; [auto|apply is_nul_false; exact Hb]|].
  destruct (IH H). auto.
Qed.

Lemma word_end_incl cursor c : In c (word_end cursor) -> In c cursor.
Proof.
  induction cursor as [|b cursor IH]; simpl; [tauto|].
  destruct (is_nul b); simpl; auto.
Qed.

Lemma next_word_start_incl cursor word c :
  next_word_start cursor = Some word -> In c word -> In c cursor.
Proof.
  revert word; induction cursor as [|b cursor IH]; simpl; intros word Hw;
    [discriminate|].
  destruct (is_nul b); [right; eapply IH; eauto|].
  injection Hw as <-. auto.
Qed.

Lemma locate_incl cfg cursor word c :
  locate cfg cursor = Some word -> In c word -> In c cursor.
Proof.
  unfold locate. destruct (delimation cfg);
    try (destruct (is_nul (deref cursor)); [discriminate|];
         intros H; injection H as <-; auto).
  apply next_word_start_incl.
Qed.

Lemma cstr_word cursor :
  is_nul (deref cursor) = false -> cstr cursor <> [].
Proof.
  destruct cursor as [|b cursor]; simpl; [discriminate|].
  intros ->. discriminate.
Qed.

Lemma getdelim_delimiter d l c :
  In c (removelast (fst (getdelim d l))) -> c <> d.
Proof.
  induction l as [|b l IH]; simpl; [tauto|].
  destruct (Byte.eqb b d) eqn:Hb; simpl; [tauto|].
  destruct (getdelim d l) as [r t] eqn:Hg. simpl in *.
  destruct r as [|b' r]; [tauto|].
  intros [<-|H]; [apply Byte.eqb_false; exact Hb|apply IH; exact H].
Qed.

Lemma prepare_path_bytes cfg stdin raw rest c :
  read cfg stdin = Line raw rest ->
  In c (prepare cfg raw) ->
  (delimation cfg = ASCII_WHITESPACE_DELIMATION -> isspace c = false) /\
  (delimation cfg = LINE_DELIMATION -> c <> x0a).
Proof.
  intros Hr Hc. unfold prepare in Hc. split; intros Hd; rewrite Hd in Hc.
  - apply in_map_iff in Hc as (b & <- & _).
    destruct (isspace b) eqn:Hb; [reflexivity|exact Hb].
  - assert (Hraw : forall b, In b (removelast raw) -> b <> x0a).
    { unfold read in Hr. destruct (pending stdin) as [|b0 l]; 
        [destruct (failure stdin); discriminate|].
      rewrite Hd in Hr.
      pose proof (getdelim_delimiter x0a (b0 :: l)) as Hg.
      destruct (getdelim x0a (b0 :: l)) as [r t]. injection Hr as <- _.
      exact Hg. }
    destruct (Byte.eqb (last raw x00) x0a) eqn:Hl.
    + apply in_app_or in Hc as [Hc|[<-|[]]]; [auto|discriminate].
    + destruct raw as [|b0 raw]; [destruct Hc|].
      rewrite (app_removelast_last x00 (l := b0 :: raw)) in Hc
        by discriminate.
      apply in_app_or in Hc as [Hc|[<-|[]]]; [auto|].
      apply Byte.eqb_false; exact Hl.
Qed.

Lemma opened_app tr tr' : opened (tr ++ tr') = opened tr ++ opened tr'.
Proof. apply flat_map_app. Qed.

Lemma opened_inner middle : forallb inner middle = true -> opened middle = [].
Proof.
  induction middle as [|e middle IH]; simpl; intros H; [reflexivity|].
  apply andb_true_iff in H as [He Hm]. rewrite (IH Hm).
  destruct e; try discriminate; reflexivity.
Qed.

Lemma opened_query cfg line cursor sys j flagged delta :
  query_shape cfg line cursor sys j flagged delta ->
  opened delta = [cstr cursor].
Proof.
  intros Hshape. apply query_shape_split in Hshape
    as (r & middle & out & -> & Hmiddle & Hout).
  simpl. rewrite opened_app, (opened_inner _ Hmiddle). simpl.
  destruct Hout as [->|(rc & ->)]; [reflexivity|].
  unfold emission. destruct (display cfg rc); [|reflexivity].
  destruct (delimation cfg); reflexivity.
Qed.

(** X5. The program never tries to open the empty path, and a path that it
    opens holds no null byte, no white space in whitespace delimation and no
    line separator in line delimation. *)
Theorem opened_paths_are_well_formed cfg stdin path :
  In path (opened (trace (final_state (main cfg stdin)))) ->
  path <> [] /\ Forall (path_byte cfg) path.
Proof.
  revert path. unfold main.
  apply (main_loop_rule_io cfg
    (fun _ s => forall path, In path (opened (trace s)) ->
                  path <> [] /\ Forall (path_byte cfg) path)
    (fun raw _ cursor s =>
       (forall path, In path (opened (trace s)) ->
          path <> [] /\ Forall (path_byte cfg) path) /\
       (forall c, In c cursor ->
          (delimation cfg = ASCII_WHITESPACE_DELIMATION ->
           isspace c = false) /\
          (delimation cfg = LINE_DELIMATION -> c <> x0a)))
    (fun o => forall path, In path (opened (trace (final_state o))) ->
                path <> [] /\ Forall (path_byte cfg) path)).
  - intros stdin' raw rest s Hs Hr. split.
    + intros path. simpl. rewrite opened_app. simpl. rewrite app_nil_r.
      apply Hs.
    + intros c. apply (prepare_path_bytes cfg stdin' raw rest c Hr).
  - intros raw rest cursor s [Hs _] _. exact Hs.
  - intros raw rest cursor word s [Hs Hcur] Hw.
    destruct (query_shape_of cfg (prepare cfg raw) word s)
      as (flagged & delta & Hshape & Hstate).
    pose proof (opened_query _ _ _ _ _ _ _ Hshape) as Hopen.
    destruct (query cfg (prepare cfg raw) word s) as [j s']. simpl in *.
    subst s'.
    assert (Hall : forall path, In path (opened (trace s ++ delta)) ->
              path <> [] /\ Forall (path_byte cfg) path).
    { intros path. rewrite opened_app, Hopen. intros Hin.
      apply in_app_or in Hin as [Hin|[<-|[]]]; [apply Hs; exact Hin|].
      pose proof (locate_some cfg cursor word Hw) as [Hnn _].
      split; [apply cstr_word; exact Hnn|].
      apply Forall_forall. intros c Hc.
      apply cstr_incl in Hc as [Hc Hc0].
      split; [exact Hc0|]. apply Hcur.
      eapply locate_incl; eauto. }
    destruct j; simpl; try exact Hall.
    split; [exact Hall|]. intros c Hc. apply Hcur.
    eapply locate_incl; [exact Hw|]. apply word_end_incl; exact Hc.
  - auto.
  - intros stdin' e s Hs _ path. simpl. rewrite opened_app. simpl.
    rewrite app_nil_r. apply Hs.
  - intros path [].
Qed.

(** ** The tokenizer computes the tokens of the input *)

Lemma records_getdelim d l :
  l <> [] ->
  records d l = fst (getdelim d l) :: records d (snd (getdelim d l)).
Proof.
  induction l as [|c l IH]; [congruence|]. intros _. simpl.
  destruct (Byte.eqb c d); [reflexivity|].
  destruct l as [|c' l]; [reflexivity|].
  rewrite IH by discriminate.
  destruct (getdelim d (c' :: l)) as [r t]. reflexivity.
Qed.

Lemma read_records cfg stdin raw rest :
  read cfg stdin = Line raw rest ->
  records (delimiter cfg) (pending stdin)
    = raw :: records (delimiter cfg) (pending rest).
Proof.
  unfold read, delimiter. destruct (pending stdin) as [|c l] eqn:Hp.
  - destruct (failure stdin); discriminate.
  - set (d := match delimation cfg with
              | NULL_BYTE_DELIMATION => x00 | _ => x0a end).
    rewrite (records_getdelim d (c :: l)) by discriminate.
    destruct (getdelim d (c :: l)) as [r t]. intros E. injection E as <- <-.
    reflexivity.
Qed.

Lemma fields_cstr l :
  fields is_nul l =
  cstr l :: match word_end l with
            | [] => []
            | _ :: after => fields is_nul after
            end.
Proof.
  induction l as [|c l IH]; simpl; [reflexivity|].
  destruct (is_nul c); [reflexivity|]. rewrite IH. reflexivity.
Qed.

Lemma word_end_head l b after : word_end l = b :: after -> is_nul b = true.
Proof.
  induction l as [|c l IH]; simpl; [discriminate|].
  destruct (is_nul c) eqn:Hc; [|exact IH].
  intros H. injection H as <- _. exact Hc.
Qed.

Lemma words_none cursor :
  next_word_start cursor = None -> words_by is_nul cursor = [].
Proof.
  unfold words_by. induction cursor as [|c cursor IH]; simpl;
    [reflexivity|].
  destruct (is_nul c); [exact IH|discriminate].
Qed.

Lemma words_some cursor : forall word,
  next_word_start cursor = Some word ->
  words_by is_nul cursor = cstr word :: words_by is_nul (word_end word).
Proof.
  unfold words_by. induction cursor as [|c cursor IH]; simpl; intros word Hw;
    [discriminate|].
  destruct (is_nul c) eqn:Hc; [apply IH; exact Hw|].
  injection Hw as <-. simpl. rewrite Hc.
  rewrite (fields_cstr cursor). simpl. f_equal.
  destruct (word_end cursor) as [|b after] eqn:He; [reflexivity|].
  simpl. rewrite (word_end_head _ _ _ He). reflexivity.
Qed.

Lemma fields_prepare raw :
  fields is_nul (map (fun c => if isspace c then x00 else c) raw)
    = fields separates raw.
Proof.
  induction raw as [|c raw IH]; simpl; [reflexivity|].
  unfold separates at 1. destruct (isspace c); simpl; rewrite IH; reflexivity.
Qed.

Lemma cstr_terminated l : cstr (l ++ [x00]) = cstr l.
Proof.
  induction l as [|c l IH]; simpl; [reflexivity|].
  destruct (is_nul c); [reflexivity|]. rewrite IH. reflexivity.
Qed.

Lemma cstr_clean l : (forall c, In c l -> c <> x00) -> cstr l = l.
Proof.
  induction l as [|c l IH]; simpl; intros H; [reflexivity|].
  assert (Hc : is_nul c = false) by (apply is_nul_false; auto).
  rewrite Hc, IH; auto.
Qed.

Lemma tokens_from_prepare cfg stdin raw rest :
  read cfg stdin = Line raw rest ->
  tokens_from cfg (prepare cfg raw) = tokens cfg raw.
Proof.
  intros Hr. unfold tokens_from, tokens, prepare.
  destruct (delimation cfg) eqn:Hd.
  - unfold chomp. destruct (Byte.eqb (last raw x00) x0a); [|reflexivity].
    rewrite cstr_terminated. reflexivity.
  - f_equal.
    assert (Hraw : forall b, In b (removelast raw) -> b <> x00).
    { unfold read in Hr. destruct (pending stdin) as [|b0 l];
        [destruct (failure stdin); discriminate|].
      rewrite Hd in Hr.
      pose proof (getdelim_delimiter x00 (b0 :: l)) as Hg.
      destruct (getdelim x00 (b0 :: l)) as [r t]. injection Hr as <- _.
      exact Hg. }
    unfold chomp. destruct raw as [|b0 raw]; [reflexivity|].
    rewrite (app_removelast_last x00 (l := b0 :: raw)) at 1
      by discriminate.
    destruct (Byte.eqb (last (b0 :: raw) x00) x00) eqn:Hl.
    + apply Byte.byte_dec_bl in Hl. rewrite Hl, cstr_terminated.
      apply cstr_clean; exact Hraw.
    + rewrite <- (app_removelast_last x00 (l := b0 :: raw))
        by discriminate.
      apply cstr_clean. intros c Hc.
      rewrite (app_removelast_last x00 (l := b0 :: raw)) in Hc
        by discriminate.
      apply in_app_or in Hc as [Hc|[<-|[]]]; [auto|].
      apply Byte.eqb_false; exact Hl.
  - unfold words_by. rewrite fields_prepare. reflexivity.
Qed.

Lemma tokens_from_none cfg cursor :
  cursor = [] \/ locate cfg cursor = None -> tokens_from cfg cursor = [].
Proof.
  unfold tokens_from, locate.
  intros [->|H]; [destruct (delimation cfg); reflexivity|].
  destruct (delimation cfg);
    try (destruct cursor as [|c cursor]; [reflexivity|]; simpl in *;
         destruct (is_nul c); [reflexivity|discriminate]).
  apply words_none; exact H.
Qed.

Lemma tokens_from_some cfg cursor word :
  locate cfg cursor = Some word ->
  tokens_from cfg cursor =
    cstr word :: match delimation cfg with
                 | ASCII_WHITESPACE_DELIMATION =>
                     tokens_from cfg (word_end word)
                 | _ => []
                 end.
Proof.
  unfold tokens_from, locate.
  destruct (delimation cfg);
    try (destruct (is_nul (deref cursor)) eqn:Hc; [discriminate|];
         intros H; injection H as <-;
         destruct cursor as [|c cursor]; [discriminate|]; simpl in *;
         rewrite Hc; reflexivity).
  apply words_some.
Qed.

Lemma query_jump cfg line cursor sys j flagged delta :
  query_shape cfg line cursor sys j flagged delta ->
  j = advance cfg \/ j = Quit 1 \/ j = Blocked.
Proof.
  intros Hshape; inversion Hshape; subst; auto.
  match goal with H : wait_shape _ _ _ _ _ _ |- _ => inversion H; subst end;
    auto.
Qed.

(** X6. The paths that the program tries to open are the tokens of its
    input, in order: at every end of a run they are the first of the tokens,
    and when the run ends with an exit status other than 1 they are all of
    them. *)
Theorem opened_paths_are_the_tokens cfg stdin :
  (exists unopened,
     all_tokens cfg (pending stdin) =
       opened (trace (final_state (main cfg stdin))) ++ unopened) /\
  (forall status s,
     main cfg stdin = Exit status s -> status <> 1%Z ->
     opened (trace s) = all_tokens cfg (pending stdin)).
Proof.
  unfold main.
  apply (main_loop_rule_io cfg
    (fun rest s =>
       opened (trace s) ++ all_tokens cfg (pending rest)
         = all_tokens cfg (pending stdin))
    (fun _ rest cursor s =>
       opened (trace s) ++ tokens_from cfg cursor
         ++ all_tokens cfg (pending rest)
         = all_tokens cfg (pending stdin))
    (fun o => (exists unopened,
                 all_tokens cfg (pending stdin) =
                   opened (trace (final_state o)) ++ unopened) /\
              (forall status s, o = Exit status s -> status <> 1%Z ->
                 opened (trace s) = all_tokens cfg (pending stdin)))).
  - intros stdin' raw rest s Hs Hr. simpl.
    rewrite opened_app. simpl. rewrite app_nil_r.
    rewrite (tokens_from_prepare cfg stdin' raw rest Hr).
    unfold all_tokens in *.
    rewrite (read_records cfg stdin' raw rest Hr) in Hs. exact Hs.
  - intros raw rest cursor s Hs Hnone.
    rewrite (tokens_from_none cfg cursor Hnone) in Hs. exact Hs.
  - intros raw rest cursor word s Hs Hw.
    rewrite (tokens_from_some cfg cursor word Hw) in Hs.
    destruct (query_shape_of cfg (prepare cfg raw) word s)
      as (flagged & delta & Hshape & Hstate).
    pose proof (opened_query _ _ _ _ _ _ _ Hshape) as Hopen.
    pose proof (query_jump _ _ _ _ _ _ _ Hshape) as Hj.
    destruct (query cfg (prepare cfg raw) word s) as [j s']. simpl in *.
    subst s'. simpl.
    assert (Hsome : exists unopened,
              all_tokens cfg (pending stdin)
                = opened (trace s ++ delta) ++ unopened).
    { eexists. rewrite opened_app, Hopen, <- app_assoc. simpl.
      symmetry. exact Hs. }
    unfold advance in Hj.
    destruct j; simpl.
    + rewrite opened_app, Hopen, <- app_assoc. simpl.
      destruct (delimation cfg); try exact Hs;
        destruct Hj as [Hj|[Hj|Hj]]; discriminate.
    + rewrite opened_app, Hopen, <- app_assoc. simpl.
      destruct (delimation cfg); try exact Hs;
        destruct Hj as [Hj|[Hj|Hj]]; discriminate.
    + split; [exact Hsome|].
      intros status' s' Hx Hne. injection Hx as <- _.
      apply quit_shape in Hshape. contradiction.
    + split; [exact Hsome|discriminate].
  - intros stdin' s Hs Hr. simpl.
    assert (Hp : pending stdin' = []).
    { unfold read in Hr. destruct (pending stdin'); [reflexivity|].
      destruct (getdelim _ _); discriminate. }
    rewrite Hp in Hs. unfold all_tokens at 1 in Hs. simpl in Hs.
    rewrite app_nil_r in Hs. split.
    + exists []. rewrite app_nil_r. auto.
    + intros status s' Hx _. injection Hx as _ <-. exact Hs.
  - intros stdin' e s Hs Hr. simpl. split.
    + exists (all_tokens cfg (pending stdin')).
      rewrite opened_app. simpl. rewrite app_nil_r. symmetry. exact Hs.
    + intros status s' Hx Hne. injection Hx as <- _. congruence.
  - reflexivity.
Qed.

(** ** How the command is executed *)

Lemma extends_without (phi : list event -> event -> Prop)
    (bad : event -> bool) delta :
  (forall pre e, bad e = false -> phi pre e) ->
  existsb bad delta = false -> forall tr, extends phi tr delta.
Proof.
  intros Hphi. induction delta as [|e delta IH]; simpl; intros H tr;
    [exact I|].
  apply orb_false_iff in H as [He Hd]. split; [apply Hphi; exact He|].
  apply IH; exact Hd.
Qed.

Lemma launched_without cfg pre e : executed e = false -> launched cfg pre e.
Proof. intros He argv ->. discriminate. Qed.

(** X7. Whenever the command is executed, it is executed with the arguments
    of the command line, unchanged, by a child forked right after the path
    of the token was opened, was found not to be a directory, and was put
    into the environment as [QUERY_FILENAME]. *)
Theorem command_is_launched_on_the_token cfg stdin pre argv post :
  trace (final_state (main cfg stdin)) = pre ++ ChildExec argv :: post ->
  argv = command cfg /\
  exists before path fd st_mode,
    pre = before ++ [Open path (OpenFd fd); Fstat (FstatOk st_mode);
                     Setenv path; Fork] /\
    S_ISDIR P st_mode = false.
Proof.
  intros Htrace.
  assert (H : always (launched cfg) (trace (final_state (main cfg stdin))));
    [|exact (H _ _ _ Htrace argv eq_refl)].
  clear. unfold main.
  apply (main_loop_rule cfg
    (fun s => always (launched cfg) (trace s))
    (fun _ s => always (launched cfg) (trace s))
    (fun o => always (launched cfg) (trace (final_state o)))).
  - intros raw s Hs. simpl. apply always_snoc; [exact Hs|].
    apply launched_without; reflexivity.
  - auto.
  - intros raw word s Hs _.
    destruct (query_shape_of cfg (prepare cfg raw) word s)
      as (flagged & delta & Hshape & Hstate).
    destruct (query cfg (prepare cfg raw) word s) as [j s']. simpl in *.
    subst s'.
    assert (Hall : always (launched cfg) (trace s ++ delta)).
    { apply always_extends; [exact Hs|].
      assert (Hfree : forall d, existsb executed d = false ->
                forall tr, extends (launched cfg) tr d).
      { intros d Hd. apply (extends_without _ executed);
          [apply launched_without|exact Hd]. }
      inversion Hshape; subst; try (apply Hfree; reflexivity).
      - apply Hfree.
        match goal with
        | |- context [match ?d with BeforeClose => _ | DuringWait => _ end]
          => destruct d
        end; reflexivity.
      - apply (extends_app _ [_; _; _; _]); [apply Hfree; reflexivity|].
        apply extends_app.
        + destruct (sys_child (os (opens s) (cstr word)))
            as [[| |] e|e at_|e|];
            try (apply Hfree; reflexivity).
          simpl. split; [|exact I].
          intros argv Hx. injection Hx as <-. split; [reflexivity|].
          exists (trace s), (cstr word), fd, st_mode. auto.
        + apply Hfree. simpl.
          eapply existsb_waited; eauto. }
    destruct j; exact Hall.
  - auto.
  - intros e s Hs. simpl. apply always_snoc; [exact Hs|].
    apply launched_without; reflexivity.
  - apply always_nil.
Qed.

(** ** The output is a selection of the tokens *)

Lemma subsequence_refl (A : Type) (l : list A) : subsequence l l.
Proof. induction l; constructor; assumption. Qed.

Lemma subsequence_nil (A : Type) (l : list A) : subsequence [] l.
Proof. induction l; constructor; assumption. Qed.

Lemma subsequence_app (A : Type) (a b c d : list A) :
  subsequence a b -> subsequence c d -> subsequence (a ++ c) (b ++ d).
Proof.
  intros Hab Hcd. induction Hab; simpl; [exact Hcd| |];
    constructor; assumption.
Qed.

Lemma emitted_app tr tr' : emitted (tr ++ tr') = emitted tr ++ emitted tr'.
Proof. apply flat_map_app. Qed.

Lemma records_read_app tr tr' :
  records_read (tr ++ tr') = records_read tr ++ records_read tr'.
Proof. apply flat_map_app. Qed.

Lemma emitted_inner middle :
  forallb inner middle = true -> emitted middle = [].
Proof.
  induction middle as [|e middle IH]; simpl; intros H; [reflexivity|].
  apply andb_true_iff in H as [He Hm]. rewrite (IH Hm).
  destruct e; try discriminate; reflexivity.
Qed.

Lemma records_read_inner middle :
  forallb inner middle = true -> records_read middle = [].
Proof.
  induction middle as [|e middle IH]; simpl; intros H; [reflexivity|].
  apply andb_true_iff in H as [He Hm]. rewrite (IH Hm).
  destruct e; try discriminate; reflexivity.
Qed.

Lemma emitted_query cfg line cursor sys j flagged delta :
  query_shape cfg line cursor sys j flagged delta ->
  records_read delta = [] /\
  (emitted delta = [] \/
   emitted delta = [match delimation cfg with
                    | NULL_BYTE_DELIMATION => line
                    | _ => cstr cursor ++ [x0a]
                    end]).
Proof.
  intros Hshape. apply query_shape_split in Hshape
    as (r & middle & out & -> & Hmiddle & Hout).
  simpl. rewrite records_read_app, emitted_app,
    (records_read_inner _ Hmiddle), (emitted_inner _ Hmiddle). simpl.
  destruct Hout as [->|(rc & ->)]; [auto|].
  unfold emission. destruct (display cfg rc); [|auto].
  destruct (delimation cfg); auto.
Qed.

Lemma emitted_is_a_selection cfg stdin :
  let tr := trace (final_state (main cfg stdin)) in
  subsequence (emitted tr) (candidates cfg tr).
Proof.
  unfold main. simpl.
  apply (main_loop_rule_io cfg
    (fun _ s => subsequence (emitted (trace s)) (candidates cfg (trace s)))
    (fun raw _ _ s =>
       match delimation cfg with
       | NULL_BYTE_DELIMATION =>
           exists before,
             records_read (trace s) = before ++ [raw] /\
             subsequence (emitted (trace s)) before
       | _ => subsequence (emitted (trace s)) (candidates cfg (trace s))
       end)
    (fun o => subsequence (emitted (trace (final_state o)))
                (candidates cfg (trace (final_state o))))).
  - intros stdin' raw rest s Hs _. unfold candidates in *. simpl.
    rewrite emitted_app, opened_app, records_read_app. simpl.
    rewrite !app_nil_r.
    destruct (delimation cfg); try exact Hs. eauto.
  - intros raw rest cursor s Hs _. unfold candidates in *.
    destruct (delimation cfg); try exact Hs.
    destruct Hs as (before & -> & Hs).
    apply (subsequence_app _ _ _ [] [raw]) in Hs;
      [|apply subsequence_nil].
    rewrite app_nil_r in Hs. exact Hs.
  - intros raw rest cursor word s Hs _.
    destruct (query_shape_of cfg (prepare cfg raw) word s)
      as (flagged & delta & Hshape & Hstate).
    pose proof (opened_query _ _ _ _ _ _ _ Hshape) as Hopen.
    pose proof (query_jump _ _ _ _ _ _ _ Hshape) as Hj.
    pose proof (emitted_query _ _ _ _ _ _ _ Hshape) as [Hread Hemit].
    destruct (query cfg (prepare cfg raw) word s) as [j s']. simpl in *.
    subst s'. simpl.
    assert (Hall : subsequence (emitted (trace s ++ delta))
                     (candidates cfg (trace s ++ delta))).
    { unfold candidates in *.
      rewrite emitted_app, opened_app, records_read_app, Hopen, Hread,
        map_app, app_nil_r. simpl.
      destruct (delimation cfg) eqn:Hd.
      - apply subsequence_app; [exact Hs|].
        destruct Hemit as [->| ->];
          [apply subsequence_nil|apply subsequence_refl].
      - destruct Hs as (before & -> & Hs).
        apply subsequence_app; [exact Hs|].
        rewrite (prepare_null_byte cfg raw Hd) in Hemit.
        destruct Hemit as [->| ->];
          [apply subsequence_nil|apply subsequence_refl].
      - apply subsequence_app; [exact Hs|].
        destruct Hemit as [->| ->];
          [apply subsequence_nil|apply subsequence_refl]. }
    unfold advance in Hj.
    destruct j; try exact Hall.
    destruct (delimation cfg); try exact Hall;
      destruct Hj as [Hj|[Hj|Hj]]; discriminate.
  - auto.
  - intros stdin' e s Hs _. unfold candidates in *. simpl.
    rewrite emitted_app, opened_app, records_read_app. simpl.
    rewrite !app_nil_r. exact Hs.
  - unfold candidates. destruct (delimation cfg); constructor.
Qed.

Lemma flushing_query cfg line cursor sys j flagged delta :
  query_shape cfg line cursor sys j flagged delta ->
  (forall call e, sys_child sys = Dup2Fails call e -> call = OntoStderr) ->
  existsb flushing delta = false.
Proof.
  intros Hshape Hsys; inversion Hshape; subst; try reflexivity.
  - match goal with
    | |- context [match ?d with BeforeClose => _ | DuringWait => _ end] =>
        destruct d
    end; reflexivity.
  - simpl. rewrite existsb_app. simpl.
    match goal with
    | H : wait_shape _ _ _ _ _ _ |- _ =>
        rewrite (existsb_waited flushing _ _ _ _ _ _
                   (fun _ => eq_refl) (fun _ _ => eq_refl)
                   (fun _ => eq_refl) H)
    end.
    rewrite orb_false_r.
    destruct (sys_child sys) as [call e|e at_|e|] eqn:Hc; try reflexivity.
    rewrite (Hsys call e eq_refl). reflexivity.
Qed.

Lemma never_flushes cfg stdin :
  children_replace_stdout ->
  existsb flushing (trace (final_state (main cfg stdin))) = false.
Proof.
  intros Hos. unfold main.
  apply (main_loop_rule cfg
    (fun s => existsb flushing (trace s) = false)
    (fun _ s => existsb flushing (trace s) = false)
    (fun o => existsb flushing (trace (final_state o)) = false)).
  - intros raw s Hs. simpl. rewrite existsb_app, Hs. reflexivity.
  - auto.
  - intros raw word s Hs _.
    destruct (query_shape_of cfg (prepare cfg raw) word s)
      as (flagged & delta & Hshape & Hstate).
    pose proof (flushing_query _ _ _ _ _ _ _ Hshape (Hos _ _)) as Hd.
    destruct (query cfg (prepare cfg raw) word s) as [j s']. simpl in *.
    subst s'.
    destruct j; simpl; rewrite existsb_app, Hs, Hd; reflexivity.
  - auto.
  - intros e s Hs. simpl. rewrite existsb_app, Hs. reflexivity.
  - reflexivity.
Qed.

Lemma on_descriptor_plain policy tr : forall buffer,
  existsb flushing tr = false ->
  fst (on_descriptor policy buffer tr) ++ snd (on_descriptor policy buffer tr)
  = buffer ++ concat (emitted tr).
Proof.
  induction tr as [|e tr IH]; intros buffer H; simpl.
  - rewrite app_nil_r. reflexivity.
  - simpl in H. apply orb_false_iff in H as [He Htr].
    destruct e; try discriminate He; simpl; try (apply IH; exact Htr).
    + specialize (IH (skipn (policy (Read raw) buffer) buffer) Htr).
      destruct (on_descriptor policy _ tr) as [out left]. simpl in *.
      rewrite <- app_assoc, IH, app_assoc, firstn_skipn. reflexivity.
    + specialize (IH (skipn (policy (Stdout data) (buffer ++ data))
                         (buffer ++ data)) Htr).
      destruct (on_descriptor policy _ tr) as [out left]. simpl in *.
      rewrite <- app_assoc, IH, app_assoc, firstn_skipn, <- app_assoc.
      reflexivity.
Qed.

(** X8. The program is a filter.  What the parent writes to standard output
    is a selection, in the order of the input and each at most once, of the
    raw records it read in null byte delimation, and of the paths it opened,
    each followed by a line separator, in line and whitespace delimation.
    When no child fails in [dup2] before it has replaced its standard
    output, this is what has reached the descriptor when the program has
    ended, however the library buffers.  (A child that fails there writes
    its copy of the buffered output, which the parent writes again.) *)
Theorem output_is_a_selection cfg stdin :
  let tr := trace (final_state (main cfg stdin)) in
  subsequence (emitted tr) (candidates cfg tr) /\
  (children_replace_stdout ->
   forall policy status s,
     main cfg stdin = Exit status s ->
     descriptor_output policy (Exit status s) = concat (emitted (trace s))).
Proof.
  split; [apply emitted_is_a_selection|].
  intros Hos policy status s Hmain.
  pose proof (never_flushes cfg stdin Hos) as Hnever.
  rewrite Hmain in Hnever. simpl in Hnever.
  pose proof (on_descriptor_plain policy (trace s) [] Hnever) as Hplain.
  unfold descriptor_output. simpl.
  destruct (on_descriptor policy [] (trace s)) as [out left].
  exact Hplain.
Qed.

(** ** Redirecting the error stream of the command *)

Lemma unsink_log e1 e2 s1 s2 :
  unsink_state s1 = unsink_state s2 -> unsink e1 = unsink e2 ->
  unsink_state (log e1 s1) = unsink_state (log e2 s2).
Proof.
  unfold unsink_state. intros Hs He. injection Hs as H1 H2 H3. simpl.
  rewrite !map_app, H1, H2, H3. simpl. rewrite He. reflexivity.
Qed.

Lemma unsink_opens s1 s2 :
  unsink_state s1 = unsink_state s2 -> opens s1 = opens s2.
Proof. unfold unsink_state. intros H. injection H as _ H _. exact H. Qed.

Lemma unsink_emit b1 b2 cfg line cursor rc s1 s2 :
  unsink_state s1 = unsink_state s2 ->
  unsink_state (emit (with_redirect b1 cfg) line cursor rc s1) =
  unsink_state (emit (with_redirect b2 cfg) line cursor rc s2).
Proof.
  intros Hs. unfold emit.
  change (display (with_redirect b2 cfg) rc)
    with (display (with_redirect b1 cfg) rc).
  destruct (display (with_redirect b1 cfg) rc); [|exact Hs].
  simpl. destruct (delimation cfg); apply unsink_log; auto.
Qed.

Lemma unsink_wait_loop b1 b2 cfg line cursor waits : forall s1 s2,
  unsink_state s1 = unsink_state s2 ->
  fst (wait_loop (with_redirect b1 cfg) line cursor waits s1) =
  fst (wait_loop (with_redirect b2 cfg) line cursor waits s2) /\
  unsink_state (snd (wait_loop (with_redirect b1 cfg) line cursor waits s1))
  = unsink_state
      (snd (wait_loop (with_redirect b2 cfg) line cursor waits s2)).
Proof.
  induction waits as [|r waits IH]; intros s1 s2 Hs; [simpl; auto|].
  destruct (status_of r) as [status|] eqn:Hr.
  - rewrite !(wait_loop_answer _ _ _ _ _ _ _ Hr).
    destruct (classify status) as [rc|]; simpl.
    + split; [reflexivity|]. apply unsink_emit, unsink_log; auto.
    + apply IH, unsink_log; auto.
  - destruct r; try discriminate. simpl.
    split; [reflexivity|]. unfold perror. auto using unsink_log.
Qed.

Lemma unsink_query b1 b2 cfg line cursor s1 s2 :
  unsink_state s1 = unsink_state s2 ->
  fst (query (with_redirect b1 cfg) line cursor s1) =
  fst (query (with_redirect b2 cfg) line cursor s2) /\
  unsink_state (snd (query (with_redirect b1 cfg) line cursor s1)) =
  unsink_state (snd (query (with_redirect b2 cfg) line cursor s2)).
Proof.
  intros Hs. unfold query. rewrite <- (unsink_opens s1 s2 Hs).
  set (sys := os (opens s1) (cstr cursor)).
  assert (Htick : unsink_state (tick s1) = unsink_state (tick s2)).
  { unfold unsink_state in *. injection Hs as H1 H2 H3. simpl.
    rewrite H1, H2, H3. reflexivity. }
  assert (Hflag : forall t1 t2, unsink_state t1 = unsink_state t2 ->
            unsink_state (flag_non_fatal t1)
              = unsink_state (flag_non_fatal t2)).
  { unfold unsink_state. intros t1 t2 Ht. injection Ht as H1 H2 H3. simpl.
    rewrite H2, H3. reflexivity. }
  assert (Hchild : forall t1 t2, unsink_state t1 = unsink_state t2 ->
            unsink_state (fold_left (fun s e => log e s)
                            (child (with_redirect b1 cfg) (sys_child sys)) t1)
            = unsink_state (fold_left (fun s e => log e s)
                            (child (with_redirect b2 cfg) (sys_child sys))
                            t2)).
  { intros t1 t2 Ht. destruct (sys_child sys) as [[| |] e|e at_|e|]; simpl;
      repeat apply unsink_log; auto. }
  unfold perror, parent.
  destruct (sys_open sys) as [e|fd|];
    [|destruct (sys_fstat sys) as [e|st_mode];
      [|destruct (S_ISDIR P st_mode);
        [|destruct (sys_setenv sys) as [e|];
          [|destruct (sys_fork sys) as [e|];
            [|destruct (sys_child sys) as [call e|e [|]|e|] eqn:Hc]]]]|];
    try apply unsink_wait_loop;
    try (simpl; split; [reflexivity|]);
    repeat first [exact Htick | apply Hflag | apply Hchild
                 | rewrite <- Hc; apply Hchild
                 | apply unsink_log; [|reflexivity]].
Qed.

Lemma unsink_token_loop b1 b2 cfg line cursor : forall s1 s2,
  unsink_state s1 = unsink_state s2 ->
  fst (token_loop (with_redirect b1 cfg) line cursor s1) =
  fst (token_loop (with_redirect b2 cfg) line cursor s2) /\
  unsink_state (snd (token_loop (with_redirect b1 cfg) line cursor s1)) =
  unsink_state (snd (token_loop (with_redirect b2 cfg) line cursor s2)).
Proof.
  induction cursor as [cursor IH] using (induction_ltof1 _ (@length byte)).
  intros s1 s2 Hs. rewrite !token_loop_eq.
  destruct cursor as [|c rest]; [auto|].
  change (locate (with_redirect b2 cfg) (c :: rest))
    with (locate (with_redirect b1 cfg) (c :: rest)).
  destruct (locate (with_redirect b1 cfg) (c :: rest)) as [word|] eqn:Hw;
    [|auto].
  apply locate_some in Hw as [_ Hlt].
  destruct (unsink_query b1 b2 cfg line word s1 s2 Hs) as [Hj Hs'].
  destruct (query (with_redirect b1 cfg) line word s1) as [j1 t1],
           (query (with_redirect b2 cfg) line word s2) as [j2 t2].
  simpl in Hj, Hs'. subst j2.
  destruct j1; auto; apply IH; assumption.
Qed.

Lemma unsink_main_loop b1 b2 cfg stdin : forall s1 s2,
  unsink_state s1 = unsink_state s2 ->
  unsink_outcome (main_loop (with_redirect b1 cfg) stdin s1) =
  unsink_outcome (main_loop (with_redirect b2 cfg) stdin s2).
Proof.
  induction stdin as [stdin IH]
    using (induction_ltof1 _ (fun f => length (pending f))).
  intros s1 s2 Hs. rewrite !main_loop_eq.
  change (read (with_redirect b2 cfg) stdin)
    with (read (with_redirect b1 cfg) stdin).
  destruct (read (with_redirect b1 cfg) stdin) as [|e|raw rest] eqn:Hr.
  - simpl. pose proof Hs as Hs'. unfold unsink_state in Hs'.
    injection Hs' as H1 _ _. rewrite H1, Hs. reflexivity.
  - simpl. f_equal. unfold perror. apply unsink_log; auto.
  - apply read_line in Hr.
    change (prepare (with_redirect b2 cfg) raw)
      with (prepare (with_redirect b1 cfg) raw).
    destruct (unsink_token_loop b1 b2 cfg
                (prepare (with_redirect b1 cfg) raw)
                (prepare (with_redirect b1 cfg) raw) _ _
                (unsink_log (Read raw) (Read raw) _ _ Hs eq_refl))
      as [Hj Hs'].
    destruct (token_loop (with_redirect b1 cfg) _ _ (log (Read raw) s1))
      as [j1 t1],
      (token_loop (with_redirect b2 cfg) _ _ (log (Read raw) s2))
      as [j2 t2].
    simpl in Hj, Hs'. subst j2.
    destruct j1; simpl; try (f_equal; exact Hs'); apply IH; assumption.
Qed.

Lemma stdout_of_unsink tr : stdout_of (map unsink tr) = stdout_of tr.
Proof.
  induction tr as [|e tr IH]; simpl; [reflexivity|].
  rewrite IH. destruct e; reflexivity.
Qed.

(** X9. Redirecting the error stream of the command changes nothing but the
    stream that the child's error stream is bound to: with and without the
    redirection the program ends in the same way, with the same exit status,
    after the same events, and writes the same to standard output. *)
Theorem redirection_only_moves_the_child_stderr cfg stdin :
  let quiet := main (with_redirect true cfg) stdin in
  let loud := main (with_redirect false cfg) stdin in
  unsink_outcome quiet = unsink_outcome loud /\
  stdout_of (trace (final_state quiet)) = stdout_of (trace (final_state loud)).
Proof.
  intros quiet loud.
  assert (H : unsink_outcome quiet = unsink_outcome loud)
    by (apply unsink_main_loop; reflexivity).
  split; [exact H|].
  rewrite <- (stdout_of_unsink (trace (final_state quiet))),
          <- (stdout_of_unsink (trace (final_state loud))).
  destruct quiet, loud; simpl in *; try discriminate;
    injection H; intros; congruence.
Qed.

(** * Properties of the code before the loop *)

Lemma option_case_flag self c o :
  is_flag c = true ->
  option_case self c o =
    Started
      {| opt_delimation :=
           if is_delimation c then
             match c with
             | x30 => NULL_BYTE_DELIMATION
             | x77 => ASCII_WHITESPACE_DELIMATION
             | _ => LINE_DELIMATION
             end
           else opt_delimation o;
         opt_display_on_success :=
           opt_display_on_success o && negb (Byte.eqb x21 c);
         opt_redirect_stderr := opt_redirect_stderr o || Byte.eqb x73 c |}.
Proof.
  destruct o as [d b r].
  destruct c; try discriminate; intros _; simpl;
    rewrite ?andb_true_r, ?andb_false_r, ?orb_true_r, ?orb_false_r;
    reflexivity.
Qed.

Lemma option_case_stops self c o :
  is_flag c = false ->
  option_case self c o =
    if Byte.eqb c x68 then Stopped 0 (usage self) []
    else Stopped 1 []
           (if Byte.eqb c x2b
            then [Message (self ++ bytes ": invalid option -- '+'" ++ [x0a])]
            else []).
Proof. destruct c; try discriminate; reflexivity. Qed.

Lemma find_snoc (f : byte -> bool) l c :
  find f (l ++ [c]) =
  match find f l with
  | Some x => Some x
  | None => if f c then Some c else None
  end.
Proof.
  induction l as [|b l IH]; simpl; [reflexivity|].
  destruct (f b); [reflexivity|exact IH].
Qed.

Lemma options_loop_flags self returned : forall o,
  forallb is_flag returned = true ->
  options_loop self returned o =
    Started
      {| opt_delimation :=
           match find is_delimation (rev returned) with
           | Some x30 => NULL_BYTE_DELIMATION
           | Some x77 => ASCII_WHITESPACE_DELIMATION
           | Some _ => LINE_DELIMATION
           | None => opt_delimation o
           end;
         opt_display_on_success :=
           opt_display_on_success o
           && negb (existsb (Byte.eqb x21) returned);
         opt_redirect_stderr :=
           opt_redirect_stderr o || existsb (Byte.eqb x73) returned |}.
Proof.
  induction returned as [|c returned IH]; intros o H; simpl.
  - rewrite andb_true_r, orb_false_r. destruct o; reflexivity.
  - apply andb_true_iff in H as [Hc Hr].
    rewrite (option_case_flag self c o Hc), (IH _ Hr). simpl.
    rewrite find_snoc. f_equal. f_equal.
    + destruct (find is_delimation (rev returned)) as [x|]; [reflexivity|].
      destruct c; try discriminate Hc; reflexivity.
    + rewrite negb_orb, andb_assoc. reflexivity.
    + rewrite orb_assoc. reflexivity.
Qed.

Lemma options_loop_stops self before c after : forall o,
  forallb is_flag before = true -> is_flag c = false ->
  options_loop self (before ++ c :: after) o =
    if Byte.eqb c x68 then Stopped 0 (usage self) []
    else Stopped 1 []
           (if Byte.eqb c x2b
            then [Message (self ++ bytes ": invalid option -- '+'" ++ [x0a])]
            else []).
Proof.
  induction before as [|b before IH]; intros o Hb Hc; simpl.
  - rewrite (option_case_stops self c o Hc).
    destruct (Byte.eqb c x68); reflexivity.
  - apply andb_true_iff in Hb as [Hb Hr].
    rewrite (option_case_flag self b o Hb). apply IH; assumption.
Qed.

Lemma forallb_split (l : list byte) :
  forallb is_flag l = false ->
  exists before c after,
    l = before ++ c :: after /\
    forallb is_flag before = true /\ is_flag c = false.
Proof.
  induction l as [|b l IH]; simpl; [discriminate|].
  destruct (is_flag b) eqn:Hb; simpl.
  - intros H. destruct (IH H) as (before & c & after & -> & H1 & H2).
    exists (b :: before), c, after. simpl. rewrite Hb. auto.
  - intros _. exists [], b, l. auto.
Qed.

(** X10. The loop is entered exactly when every option sets a flag, a
    command is left after the exclamation mark, if there is one, and
    [/dev/null] and the signal handler are set up; the configuration is then
    the one that the options ask for: the delimation of the last option that
    names one, the polarity inverted by the option or by the exclamation
    mark, whatever their number, and the command as it was given. *)
Theorem setup_starts_iff self returned args dev_null handler cfg :
  setup self returned args dev_null handler = Started cfg <->
  forallb is_flag returned = true /\
  after_bang args <> [] /\
  dev_null = None /\ handler = None /\
  cfg = configuration returned args.
Proof.
  unfold setup. destruct (forallb is_flag returned) eqn:Hf.
  - rewrite (options_loop_flags self returned defaults Hf). simpl.
    unfold configuration, chosen_delimation.
    assert (Hbang : forall o,
              bang o args =
                ({| opt_delimation := opt_delimation o;
                    opt_display_on_success :=
                      opt_display_on_success o && negb (has_bang args);
                    opt_redirect_stderr := opt_redirect_stderr o |},
                 after_bang args)).
    { intros [d b r]. unfold bang, has_bang, after_bang. simpl.
      destruct args as [|[|c [|c' a]] args];
        rewrite ?andb_true_r; try reflexivity;
        destruct c; rewrite ?andb_true_r, ?andb_false_r; reflexivity. }
    rewrite Hbang. simpl. rewrite negb_orb.
    destruct (after_bang args) as [|a args'] eqn:Ha.
    + split; [discriminate|]. intros (_ & H & _). congruence.
    + destruct dev_null as [e|]; [split; [discriminate|];
        intros (_ & _ & H & _); discriminate|].
      destruct handler as [e|]; [split; [discriminate|];
        intros (_ & _ & _ & H & _); discriminate|].
      split.
      * intros H. injection H as <-. repeat split; discriminate.
      * intros (_ & _ & _ & _ & ->). reflexivity.
  - destruct (forallb_split returned Hf)
      as (before & c & after & -> & Hb & Hc).
    rewrite (options_loop_stops self before c after defaults Hb Hc).
    split; [destruct (Byte.eqb c x68); discriminate|].
    intros (H & _). discriminate.
Qed.

(** X11. The first option that does not set a flag decides: [-h] prints the
    usage text to standard output and ends the program with status 0, any
    other option ends it with status 1; what follows on the command line,
    a missing command included, is not looked at, and nothing is read. *)
Theorem first_other_option_decides self before c after args dev_null
    handler stdin :
  forallb is_flag before = true -> is_flag c = false ->
  program self (before ++ c :: after) args dev_null handler stdin =
    if Byte.eqb c x68 then Stopped 0 (usage self) []
    else Stopped 1 []
           (if Byte.eqb c x2b
            then [Message (self ++ bytes ": invalid option -- '+'" ++ [x0a])]
            else []).
Proof.
  intros Hb Hc. unfold program, setup.
  rewrite (options_loop_stops self before c after defaults Hb Hc).
  destruct (Byte.eqb c x68); reflexivity.
Qed.

(** X12. An exclamation mark as the first argument after the options is the
    same as the option [-!] at their end, provided the argument after it is
    not an exclamation mark again. *)
Theorem bang_is_the_option self returned args dev_null handler stdin :
  forallb is_flag returned = true ->
  has_bang args = false ->
  program self returned ([x21] :: args) dev_null handler stdin =
  program self (returned ++ [x21]) args dev_null handler stdin.
Proof.
  intros Hf Hb. unfold program, setup.
  assert (Hf' : forallb is_flag (returned ++ [x21]) = true)
    by (rewrite forallb_app, Hf; reflexivity).
  rewrite (options_loop_flags self returned defaults Hf),
          (options_loop_flags self (returned ++ [x21]) defaults Hf').
  simpl. rewrite rev_app_distr. simpl.
  assert (Hargs : bang {| opt_delimation :=
                            match find is_delimation (rev returned) with
                            | Some x30 => NULL_BYTE_DELIMATION
                            | Some x77 => ASCII_WHITESPACE_DELIMATION
                            | _ => LINE_DELIMATION
                            end;
                          opt_display_on_success :=
                            negb (existsb (Byte.eqb x21)
                                    (returned ++ [x21]));
                          opt_redirect_stderr :=
                            existsb (Byte.eqb x73) (returned ++ [x21]) |}
                     args
                  = ({| opt_delimation :=
                          match find is_delimation (rev returned) with
                          | Some x30 => NULL_BYTE_DELIMATION
                          | Some x77 => ASCII_WHITESPACE_DELIMATION
                          | _ => LINE_DELIMATION
                          end;
                        opt_display_on_success := false;
                        opt_redirect_stderr :=
                          existsb (Byte.eqb x73) returned |}, args)).
  { rewrite !existsb_app. simpl. rewrite !orb_false_r, orb_true_r. simpl.
    unfold bang, has_bang in *.
    destruct args as [|[|c [|c' a]] args]; try reflexivity;
      destruct c; try reflexivity; discriminate. }
  match goal with
  | |- context [bang ?o args] =>
      replace (bang o args) with
        ({| opt_delimation :=
              match find is_delimation (rev returned) with
              | Some x30 => NULL_BYTE_DELIMATION
              | Some x77 => ASCII_WHITESPACE_DELIMATION
              | _ => LINE_DELIMATION
              end;
            opt_display_on_success := false;
            opt_redirect_stderr := existsb (Byte.eqb x73) returned |}, args)
        by (rewrite <- Hargs; reflexivity)
  end.
  reflexivity.
Qed.

(** ** Every token is accounted for *)

Lemma filter_none (kind : event -> bool) l :
  existsb kind l = false -> filter kind l = [].
Proof.
  induction l as [|e l IH]; simpl; [reflexivity|].
  destruct (kind e); simpl; [discriminate|exact IH].
Qed.

Lemma count_app kind tr tr' :
  count kind (tr ++ tr') = count kind tr + count kind tr'.
Proof. unfold count. rewrite filter_app, length_app. reflexivity. Qed.

Lemma count_none kind l : existsb kind l = false -> count kind l = 0.
Proof. unfold count. intros H. rewrite (filter_none kind l H). reflexivity. Qed.

Lemma token_account cfg line cursor sys j flagged delta p acc :
  query_shape cfg line cursor sys j flagged delta ->
  j = NextWord \/ j = Break ->
  (count forked delta = 0 /\ count refusing delta = 1 /\
   snd (fold_left judge delta (p, acc)) = acc) \/
  (count forked delta = 1 /\ count refusing delta = 0 /\
   exists v, snd (fold_left judge delta (p, acc)) = v :: acc).
Proof.
  intros Hshape Hj; inversion Hshape; subst;
    try (destruct Hj; discriminate).
  - left. repeat split.
  - left. unfold count. simpl.
    match goal with H : S_ISDIR P _ = true |- _ => rewrite H end.
    repeat split.
  - right.
    match goal with H : wait_shape _ _ _ _ _ _ |- _ => inversion H; subst end;
      try (destruct Hj; discriminate).
    assert (Hc1 : count forked (child cfg (sys_child sys)) = 0)
      by (apply count_none, existsb_child; auto).
    assert (Hc2 : count refusing (child cfg (sys_child sys)) = 0)
      by (apply count_none, existsb_child; auto).
    assert (Hw1 : count forked (map Wait before) = 0)
      by (apply count_none, existsb_waits; auto).
    assert (Hw2 : count refusing (map Wait before) = 0)
      by (apply count_none, existsb_waits; auto).
    assert (He1 : count forked (emission cfg line cursor return_code) = 0)
      by (apply count_none, existsb_emission; auto).
    assert (He2 : count refusing (emission cfg line cursor return_code) = 0)
      by (apply count_none, existsb_emission; auto).
    repeat split.
    + rewrite count_app, count_app. change (Close :: ?l) with ([Close] ++ l).
      rewrite count_app, count_app, Hc1, Hw1.
      change (Wait ?w :: ?l) with ([Wait w] ++ l).
      rewrite count_app, He1. reflexivity.
    + rewrite count_app, count_app. change (Close :: ?l) with ([Close] ++ l).
      rewrite count_app, count_app, Hc2, Hw2.
      change (Wait ?w :: ?l) with ([Wait w] ++ l).
      rewrite count_app, He2. unfold count. simpl.
      match goal with H : S_ISDIR P _ = false |- _ => rewrite H end.
      reflexivity.
    + destruct (judge_query _ _ _ _ _ _ _ p acc Hshape) as [Hx|(rc & Hx)];
        [|eauto].
      exfalso. revert Hx.
      rewrite fold_left_app. simpl. rewrite fold_left_app, judge_child.
      simpl. rewrite fold_left_app, judge_waits by assumption.
      answered; simpl;
        match goal with H : classify _ = Some _ |- _ => rewrite H end;
        unfold emission;
        (destruct (display cfg return_code); [destruct (delimation cfg)|]);
        simpl; intros Hx;
        apply (f_equal (@length verdict)) in Hx; simpl in Hx; lia.
Qed.

(** X13. When [wait] only ever reports on the child of the token, as it does
    when the process has no children but those that the program forks, and a
    run ends with an exit status other than 1, then no child is left, every
    child that was spawned has given one record, and every path that was
    opened was either refused, with its diagnostic, or has given one
    record. *)
Theorem every_token_is_accounted_for cfg stdin status s :
  no_other_children ->
  main cfg stdin = Exit status s -> status <> 1%Z ->
  children (trace s) = 0 /\
  count forked (trace s) = length (verdicts (trace s)) /\
  length (opened (trace s))
    = count refusing (trace s) + length (verdicts (trace s)).
Proof.
  intros Hown. unfold main, verdicts. rewrite length_rev. revert status s.
  assert (H : (fun o => forall status s, o = Exit status s ->
                 status <> 1%Z ->
                 children (trace s) = 0 /\
                 count forked (trace s)
                   = length (snd (fold_left judge (trace s) ([], []))) /\
                 length (opened (trace s))
                   = count refusing (trace s)
                     + length (snd (fold_left judge (trace s) ([], []))))
              (main_loop cfg stdin initial)); [|exact H].
  apply (main_loop_rule cfg
    (fun s => children (trace s) = 0 /\
              count forked (trace s)
                = length (snd (fold_left judge (trace s) ([], []))) /\
              length (opened (trace s))
                = count refusing (trace s)
                  + length (snd (fold_left judge (trace s) ([], []))))
    (fun _ s => children (trace s) = 0 /\
              count forked (trace s)
                = length (snd (fold_left judge (trace s) ([], []))) /\
              length (opened (trace s))
                = count refusing (trace s)
                  + length (snd (fold_left judge (trace s) ([], []))))).
  - intros raw s (H1 & H2 & H3). simpl.
    unfold children in *.
    rewrite !fold_left_app, !count_app, opened_app. simpl.
    rewrite app_nil_r. unfold count at 2 4. simpl.
    repeat split; first [exact H1 | lia].
  - auto.
  - intros raw word s (H1 & H2 & H3) _.
    destruct (query_shape_of cfg (prepare cfg raw) word s)
      as (flagged & delta & Hshape & Hstate).
    pose proof (opened_query _ _ _ _ _ _ _ Hshape) as Hopen.
    destruct (query cfg (prepare cfg raw) word s) as [j s']. simpl in *.
    subst s'.
    assert (Hgo : j = NextWord \/ j = Break ->
              children (trace s ++ delta) = 0 /\
              count forked (trace s ++ delta)
                = length (snd (fold_left judge (trace s ++ delta) ([], [])))
              /\ length (opened (trace s ++ delta))
                = count refusing (trace s ++ delta)
                  + length (snd (fold_left judge (trace s ++ delta)
                                   ([], [])))).
    { intros Hj. unfold children in *.
      rewrite !fold_left_app, !count_app, opened_app, length_app, Hopen.
      destruct (fold_left census (trace s) (0, 0)) as [n k] eqn:Hn.
      simpl in H1. subst n.
      destruct (orderly_query _ _ _ _ _ _ _ k Hshape (Hown _ _))
        as (_ & _ & H0).
      destruct (fold_left judge (trace s) ([], [])) as [p acc] eqn:Hp.
      simpl in *.
      destruct (token_account _ _ _ _ _ _ _ p acc Hshape Hj)
        as [(-> & -> & ->)|(-> & -> & v & ->)]; simpl;
        repeat split; auto; lia. }
    destruct j; simpl; auto.
    + intros status' s' Hx Hne. injection Hx as <- _.
      apply quit_shape in Hshape. contradiction.
    + discriminate.
  - intros s Hs status s' Hx _. injection Hx as _ <-. exact Hs.
  - intros e s _ status s' Hx Hne. injection Hx as <- _. congruence.
  - repeat split.
Qed.

(** ** What the diagnostics name *)

Lemma last_open_no_open rest : forall tr,
  forallb no_open rest = true -> last_open (tr ++ rest) = last_open tr.
Proof.
  unfold last_open. intros tr H. rewrite fold_left_app.
  generalize (fold_left track tr ([], [])). revert H.
  induction rest as [|e rest IH]; simpl; intros H c; [reflexivity|].
  apply andb_true_iff in H as [He Hr]. rewrite (IH Hr).
  destruct e; try discriminate; reflexivity.
Qed.

Lemma opened_no_open rest : forallb no_open rest = true -> opened rest = [].
Proof.
  induction rest as [|e rest IH]; simpl; intros H; [reflexivity|].
  apply andb_true_iff in H as [He Hr]. rewrite (IH Hr).
  destruct e; try discriminate; reflexivity.
Qed.

Lemma no_open_inner l : forallb inner l = true -> forallb no_open l = true.
Proof.
  induction l as [|e l IH]; simpl; [reflexivity|].
  intros H. apply andb_true_iff in H as [He Hl]. rewrite (IH Hl).
  destruct e; try discriminate; reflexivity.
Qed.

Lemma after_open tr path r rest :
  forallb no_open rest = true ->
  last_open (tr ++ Open path r :: rest) = path /\
  pred (length (opened (tr ++ Open path r :: rest))) = length (opened tr).
Proof.
  intros Hrest. split.
  - change (Open path r :: rest) with ([Open path r] ++ rest).
    rewrite app_assoc, (last_open_no_open rest _ Hrest).
    unfold last_open. rewrite fold_left_app. reflexivity.
  - rewrite opened_app. simpl. rewrite (opened_no_open rest Hrest).
    rewrite length_app. simpl. lia.
Qed.

Lemma extends_diagnostic cfg stdin tr front subject errno :
  existsb diagnosing front = false ->
  explained cfg stdin (tr ++ front) subject errno ->
  extends (explains cfg stdin) tr (front ++ [Stderr subject errno]).
Proof.
  intros Hfront Hex. apply extends_app.
  - apply (extends_without _ diagnosing); [|exact Hfront].
    intros pre e He sb en ->. discriminate.
  - simpl. split; [|exact I].
    intros sb en Hx. injection Hx as <- <-. exact Hex.
Qed.

Lemma extends_quietly cfg stdin tr delta :
  existsb diagnosing delta = false -> extends (explains cfg stdin) tr delta.
Proof.
  intros H. apply (extends_without _ diagnosing); [|exact H].
  intros pre e He sb en ->. discriminate.
Qed.

Lemma settled_snoc tr e :
  match e with
  | Open _ _ | Fstat _ | Setenv _ | Wait (WaitErr _) => False
  | _ => True
  end -> settled (tr ++ [e]).
Proof. unfold settled. rewrite last_last. auto. Qed.

Lemma settled_last tr front e :
  match e with
  | Open _ _ | Fstat _ | Setenv _ | Wait (WaitErr _) => False
  | _ => True
  end -> settled (tr ++ front ++ [e]).
Proof. rewrite app_assoc. apply settled_snoc. Qed.

Lemma explained_after cfg stdin s cursor r rest x subject errno :
  opens s = length (opened (trace s)) ->
  forallb no_open (rest ++ [x]) = true ->
  match x with
  | Open _ (OpenErr e) => subject = cstr cursor /\ errno = e
  | Fstat (FstatErr e) => subject = cstr cursor /\ errno = e
  | Fstat (FstatOk st_mode) =>
      if S_ISDIR P st_mode then subject = cstr cursor /\ errno = EISDIR P
      else subject = bytes "setenv" /\
           sys_setenv (os (opens s) (cstr cursor)) = Some errno
  | Setenv _ =>
      subject = bytes "fork" /\
      sys_fork (os (opens s) (cstr cursor)) = Some errno
  | Wait (WaitErr e) => subject = bytes "wait" /\ errno = e
  | _ => subject = getline_function cfg /\ failure stdin = Some errno
  end ->
  explained cfg stdin (trace s ++ Open (cstr cursor) r :: rest ++ [x])
    subject errno.
Proof.
  intros Hopens Hrest Hx. unfold explained.
  destruct (after_open (trace s) (cstr cursor) r (rest ++ [x]) Hrest)
    as [H1 H2].
  rewrite H1, H2, <- Hopens.
  change (Open (cstr cursor) r :: rest ++ [x])
    with ((Open (cstr cursor) r :: rest) ++ [x]).
  rewrite app_assoc, last_last. exact Hx.
Qed.

Lemma explained_query cfg stdin line cursor s j flagged delta :
  query_shape cfg line cursor (os (opens s) (cstr cursor)) j flagged delta ->
  opens s = length (opened (trace s)) ->
  extends (explains cfg stdin) (trace s) delta /\
  (j = NextWord \/ j = Break -> settled (trace s ++ delta)).
Proof.
  intros Hshape Hopens.
  inversion Hshape; subst.
  - split.
    + apply (extends_diagnostic _ _ _ [_]); [reflexivity|].
      unfold explained. rewrite last_last.
      destruct (after_open (trace s) (cstr cursor) (OpenErr e) [] eq_refl)
        as [-> _].
      auto.
    + intros _.
      apply (settled_last (trace s) [Open (cstr cursor) (OpenErr e)]
               (Stderr (cstr cursor) e)).
      exact I.
  - split; [|intros [|]; discriminate].
    apply (extends_diagnostic _ _ _ [_; _]); [reflexivity|].
    apply (explained_after cfg stdin s cursor (OpenFd fd) []
             (Fstat (FstatErr e))); auto.
  - split.
    + apply (extends_diagnostic _ _ _ [_; _]); [reflexivity|].
      apply (explained_after cfg stdin s cursor (OpenFd fd) []
               (Fstat (FstatOk st_mode))); auto.
      match goal with H : S_ISDIR P _ = true |- _ => rewrite H end. auto.
    + intros _.
      apply (settled_last (trace s)
               [Open (cstr cursor) (OpenFd fd); Fstat (FstatOk st_mode)]
               (Stderr (cstr cursor) (EISDIR P))).
      exact I.
  - split; [|intros [|]; discriminate].
    apply (extends_diagnostic _ _ _ [_; _]); [reflexivity|].
    apply (explained_after cfg stdin s cursor (OpenFd fd) []
             (Fstat (FstatOk st_mode))); auto.
    match goal with H : S_ISDIR P _ = false |- _ => rewrite H end. auto.
  - split; [|intros [|]; discriminate].
    apply (extends_diagnostic _ _ _ [_; _; _]); [reflexivity|].
    apply (explained_after cfg stdin s cursor (OpenFd fd)
             [Fstat (FstatOk st_mode)] (Setenv (cstr cursor))); auto.
  - split; [|intros [|]; discriminate].
    apply extends_quietly.
    match goal with
    | |- context [match ?d with BeforeClose => _ | DuringWait => _ end] =>
        destruct d
    end; reflexivity.
  - assert (Hchild : existsb diagnosing
                       (child cfg (sys_child (os (opens s) (cstr cursor))))
                     = false)
      by (apply existsb_child; auto).
    assert (Hchild' : forallb no_open
                        (child cfg (sys_child (os (opens s) (cstr cursor))))
                      = true)
      by (apply no_open_inner, inner_child).
    match goal with H : wait_shape _ _ _ _ _ _ |- _ => inversion H; subst end.
    + split; [|intros [|]; discriminate].
      apply extends_quietly. simpl. rewrite existsb_app, Hchild. simpl.
      apply existsb_waits; auto.
    + split; [|intros [|]; discriminate].
      assert (Hbefore : existsb diagnosing (map Wait before) = false)
        by (apply existsb_waits; auto).
      assert (Hbefore' : forallb no_open (map Wait before) = true)
        by (apply no_open_inner, inner_waits).
      match goal with
      | |- extends _ _ (?four ++ ?ch ++ Close :: map Wait ?bf
                          ++ [?w; Stderr ?sb ?en]) =>
          replace (four ++ ch ++ Close :: map Wait bf ++ [w; Stderr sb en])
            with ((Open (cstr cursor) (OpenFd fd)
                   :: ([Fstat (FstatOk st_mode); Setenv (cstr cursor); Fork]
                       ++ ch ++ Close :: map Wait bf) ++ [w])
                  ++ [Stderr sb en])
            by (simpl; repeat (rewrite <- app_assoc; simpl); reflexivity)
      end.
      apply extends_diagnostic.
      * simpl. rewrite !existsb_app, Hchild. simpl.
        rewrite ?existsb_app, Hbefore. reflexivity.
      * apply explained_after; auto.
        simpl. rewrite !forallb_app, Hchild'. simpl.
        rewrite ?forallb_app, Hbefore'. reflexivity.
    + split.
      * apply extends_quietly. simpl. rewrite existsb_app, Hchild. simpl.
        rewrite existsb_app, existsb_waits by auto. simpl.
        answered; simpl; apply existsb_emission; reflexivity.
      * intros _. unfold emission.
        destruct (display cfg return_code); [destruct (delimation cfg)|].
        1-3: match goal with
             | |- settled (?tr ++ ?four ++ ?ch ++ Close :: map Wait ?bf
                             ++ ?w :: [?o]) =>
                 replace (tr ++ four ++ ch ++ Close :: map Wait bf
                          ++ w :: [o])
                   with (tr ++ (four ++ ch ++ Close :: map Wait bf ++ [w])
                         ++ [o])
                   by (simpl; repeat (rewrite <- app_assoc; simpl);
                       reflexivity)
             end; apply settled_last; exact I.
        match goal with
        | |- settled (?tr ++ ?four ++ ?ch ++ Close :: map Wait ?bf
                        ++ [?w]) =>
            replace (tr ++ four ++ ch ++ Close :: map Wait bf ++ [w])
              with (tr ++ (four ++ ch ++ Close :: map Wait bf) ++ [w])
              by (simpl; repeat (rewrite <- app_assoc; simpl);
                  reflexivity)
        end.
        apply settled_last. answered; exact I.
  - split; [|intros [|]; discriminate]. apply extends_quietly. reflexivity.
Qed.

Lemma read_failure cfg stdin raw rest :
  read cfg stdin = Line raw rest -> failure rest = failure stdin.
Proof.
  unfold read. destruct (pending stdin); [destruct (failure stdin); discriminate|].
  destruct (getdelim _ _). intros H. injection H as _ <-. reflexivity.
Qed.

Lemma read_error cfg stdin e :
  read cfg stdin = ReadErr e -> failure stdin = Some e.
Proof.
  unfold read. destruct (pending stdin).
  - destruct (failure stdin); intros H; [injection H as ->; reflexivity
                                        |discriminate].
  - destruct (getdelim _ _). discriminate.
Qed.

(** X15. Every diagnostic that the loop writes names what failed and reports
    its [errno].  After a failing [open] or [fstat] it names the path of the
    token at hand, with the [errno] of the failure; after a successful
    [fstat] it names the path, with [EISDIR], when the path is a directory,
    and otherwise [setenv], with the [errno] that [setenv] failed with on
    that path; after the variable was set it names [fork], with the [errno]
    that [fork] failed with; after a failing [wait] it names [wait], with
    the [errno] of the failure; and in any other place it names the function
    that reads the input, with the [errno] of the read error in which the
    input ends. *)
Theorem diagnostics_name_the_token cfg stdin pre subject errno post :
  trace (final_state (main cfg stdin)) = pre ++ Stderr subject errno :: post ->
  explained cfg stdin pre subject errno.
Proof.
  intros Htrace.
  assert (H : always (explains cfg stdin)
                (trace (final_state (main cfg stdin))));
    [|exact (H _ _ _ Htrace subject errno eq_refl)].
  clear. unfold main.
  apply (main_loop_rule_io cfg
    (fun stdin' s =>
       failure stdin' = failure stdin /\
       opens s = length (opened (trace s)) /\
       settled (trace s) /\
       always (explains cfg stdin) (trace s))
    (fun _ rest _ s =>
       failure rest = failure stdin /\
       opens s = length (opened (trace s)) /\
       settled (trace s) /\
       always (explains cfg stdin) (trace s))
    (fun o => always (explains cfg stdin) (trace (final_state o)))).
  - intros stdin' raw rest s (Hf & Ho & Hs & Ha) Hread. simpl.
    rewrite (read_failure _ _ _ _ Hread), opened_app. simpl.
    rewrite app_nil_r. repeat split; auto.
    + apply settled_snoc. exact I.
    + apply always_snoc; [exact Ha|]. intros sb en Hx. discriminate.
  - auto.
  - intros raw rest cursor word s (Hf & Ho & Hs & Ha) _.
    destruct (query_shape_of cfg (prepare cfg raw) word s)
      as (flagged & delta & Hshape & Hstate).
    pose proof (opened_query _ _ _ _ _ _ _ Hshape) as Hopen.
    destruct (explained_query cfg stdin _ _ _ _ _ _ Hshape Ho)
      as [Hext Hset].
    destruct (query cfg (prepare cfg raw) word s) as [j s']. simpl in *.
    subst s'.
    assert (Hall : always (explains cfg stdin) (trace s ++ delta))
      by (apply always_extends; assumption).
    assert (Hlen : S (opens s) = length (opened (trace s ++ delta)))
      by (rewrite opened_app, length_app, Hopen, Ho; simpl; lia).
    destruct j; simpl; auto; repeat split; auto.
  - intros stdin' s (_ & _ & _ & Ha) _. exact Ha.
  - intros stdin' e s (Hf & Ho & Hs & Ha) Hread. simpl.
    apply always_snoc; [exact Ha|].
    intros sb en Hx. injection Hx as <- <-.
    apply read_error in Hread. rewrite Hf in Hread.
    unfold explained. unfold settled in Hs.
    destruct (last (trace s) (Read [])) as
      [?|? [?|?|]|[?|?]|? ?|?| |? ? ?|?|?| |?| |[?|?|?|?]|?];
      try contradiction; auto.
  - repeat split. apply always_nil.
Qed.

(** ** A command that succeeds on every token *)

Lemma query_succeeds cfg line word s :
  succeeds (os (opens s) (cstr word)) ->
  exists s',
    query cfg line word s = (advance cfg, s') /\
    non_fatal_errors s' = non_fatal_errors s /\
    emitted (trace s') =
      emitted (trace s) ++
      if display_on_success cfg then
        [match delimation cfg with
         | NULL_BYTE_DELIMATION => line
         | _ => cstr word ++ [x0a]
         end]
      else [].
Proof.
  intros (fd & st_mode & status & waits & Ho & Hf & Hd & He & Hk & Hc
          & Hw & Hs).
  unfold query, parent. rewrite Ho, Hf, Hd, He, Hk, Hc, Hw. simpl.
  rewrite Hs. eexists. split; [reflexivity|].
  unfold emit, display, EXIT_SUCCESS. simpl.
  destruct (display_on_success cfg); simpl.
  - destruct (delimation cfg); simpl; (split; [reflexivity|]);
      rewrite !emitted_app; simpl; rewrite !app_nil_r; reflexivity.
  - split; [reflexivity|].
    rewrite !emitted_app; simpl; rewrite !app_nil_r; reflexivity.
Qed.

(** X16. When the system lets the command run on every path and the command
    succeeds on each, and the input ends without a read error, the program
    ends with exit status 0 and has written every token of its input, in
    order, if the polarity flag is set, and nothing if it is not. *)
Theorem every_token_is_written cfg stdin :
  (forall n path, succeeds (os n path)) ->
  failure stdin = None ->
  exists s,
    main cfg stdin = Exit 0 s /\
    emitted (trace s) =
      if display_on_success cfg then all_written cfg (pending stdin) else [].
Proof.
  intros Hos Hfail. unfold main.
  set (out := fun input =>
         if display_on_success cfg then all_written cfg input else []).
  set (out_from := fun raw cursor =>
         if display_on_success cfg then written_from cfg raw cursor else []).
  apply (main_loop_rule_io cfg
    (fun rest s =>
       non_fatal_errors s = false /\ failure rest = None /\
       emitted (trace s) ++ out (pending rest) = out (pending stdin))
    (fun raw rest cursor s =>
       non_fatal_errors s = false /\ failure rest = None /\
       emitted (trace s) ++ out_from raw cursor ++ out (pending rest)
         = out (pending stdin))
    (fun o => exists s, o = Exit 0 s /\
                        emitted (trace s) = out (pending stdin))).
  - intros stdin' raw rest s (Hn & Hf & Hs) Hr.
    pose proof (read_app cfg stdin' raw rest Hr) as [_ Hf'].
    split; [exact Hn|]. split; [congruence|].
    simpl. rewrite emitted_app. simpl. rewrite app_nil_r.
    rewrite <- Hs. f_equal. unfold out, out_from, all_written.
    destruct (display_on_success cfg); [|reflexivity].
    rewrite (read_records cfg stdin' raw rest Hr). simpl. f_equal.
    unfold written_from, written.
    rewrite (tokens_from_prepare cfg stdin' raw rest Hr). reflexivity.
  - intros raw rest cursor s (Hn & Hf & Hs) Hnone.
    split; [exact Hn|]. split; [exact Hf|]. rewrite <- Hs. f_equal.
    unfold out_from, written_from.
    rewrite (tokens_from_none cfg cursor Hnone).
    destruct (display_on_success cfg), (delimation cfg); reflexivity.
  - intros raw rest cursor word s (Hn & Hf & Hs) Hw.
    destruct (query_succeeds cfg (prepare cfg raw) word s
                (Hos (opens s) (cstr word))) as (s' & Hq & Hn' & He).
    rewrite Hq. unfold advance.
    assert (Hfrom : out_from raw cursor =
              (if display_on_success cfg then
                 [match delimation cfg with
                  | NULL_BYTE_DELIMATION => prepare cfg raw
                  | _ => cstr word ++ [x0a]
                  end]
               else []) ++
              match delimation cfg with
              | ASCII_WHITESPACE_DELIMATION => out_from raw (word_end word)
              | _ => []
              end).
    { unfold out_from, written_from.
      rewrite (tokens_from_some cfg cursor word Hw).
      destruct (display_on_success cfg);
        [|destruct (delimation cfg); reflexivity].
      destruct (delimation cfg) eqn:Hd; simpl; try reflexivity.
      rewrite (prepare_null_byte cfg raw Hd). reflexivity. }
    rewrite Hfrom, <- app_assoc, app_assoc, <- He in Hs.
    destruct (delimation cfg); simpl in *;
      (split; [congruence|]); (split; [exact Hf|]); exact Hs.
  - intros stdin' s (Hn & Hf & Hs) Hr. rewrite Hn.
    exists s. split; [reflexivity|].
    assert (Hp : pending stdin' = []).
    { unfold read in Hr. destruct (pending stdin'); [reflexivity|].
      destruct (getdelim _ _); discriminate. }
    rewrite Hp in Hs. unfold out at 1, all_written in Hs. simpl in Hs.
    destruct (display_on_success cfg); rewrite app_nil_r in Hs; exact Hs.
  - intros stdin' e s (_ & Hf & _) Hr. unfold read in Hr. rewrite Hf in Hr.
    destruct (pending stdin'); [discriminate|].
    destruct (getdelim _ _); discriminate.
  - repeat split; assumption.
Qed.

(** ** The records that are written *)









(** ** The descriptors of the parent *)

Lemma count_cons kind (e : event) tr :
  count kind (e :: tr) = count kind [e] + count kind tr.
Proof. exact (count_app kind [e] tr). Qed.

Lemma count_waited (kind : event -> bool) cfg line cursor fate before r
    return_code path fd st_mode :
  (forall to subject e, kind (ChildStderr to subject e) = false) ->
  (forall argv, kind (ChildExec argv) = false) ->
  (forall signal, kind (ChildKillPending signal) = false) ->
  kind ChildFlush = false ->
  (forall r, kind (Wait r) = false) ->
  (forall b, kind (Stdout b) = false) ->
  (forall e at_, fate <> ExecFails e at_) ->
  Forall not_terminated before ->
  count kind
    ([Open path (OpenFd fd); Fstat (FstatOk st_mode); Setenv path; Fork]
     ++ child cfg fate ++ Close :: map Wait before
     ++ Wait r :: emission cfg line cursor return_code)
  = count kind
      [Open path (OpenFd fd); Fstat (FstatOk st_mode); Setenv path; Fork;
       Close].
Proof.
  intros H1 H2 H5 H6 H3 H4 Hfate Hbefore.
  rewrite count_app, count_app, (count_cons kind Close), count_app,
    (count_cons kind (Wait r)).
  change [Open path (OpenFd fd); Fstat (FstatOk st_mode); Setenv path; Fork;
          Close]
    with ([Open path (OpenFd fd); Fstat (FstatOk st_mode); Setenv path; Fork]
          ++ [Close]).
  rewrite count_app.
  rewrite (count_none kind (child cfg fate))
    by (apply existsb_child; assumption).
  rewrite (count_none kind (map Wait before))
    by (apply existsb_waits; auto).
  rewrite (count_none kind (emission cfg line cursor return_code))
    by (apply existsb_emission; assumption).
  assert (Hw : count kind [Wait r] = 0)
    by (unfold count; simpl; rewrite H3; reflexivity).
  lia.
Qed.

Lemma descriptor_account cfg line cursor sys j flagged delta :
  query_shape cfg line cursor sys j flagged delta ->
  j = NextWord \/ j = Break ->
  count descriptor delta = count closing delta + count directory delta /\
  count closing delta = count forked delta.
Proof.
  intros Hshape Hj; inversion Hshape; subst;
    try (destruct Hj; discriminate).
  - split; reflexivity.
  - unfold count. simpl.
    match goal with H : S_ISDIR P _ = true |- _ => rewrite H end.
    split; reflexivity.
  - match goal with H : wait_shape _ _ _ _ _ _ |- _ => inversion H; subst end;
      try (destruct Hj; discriminate).
    rewrite !count_waited by auto.
    unfold count. simpl.
    match goal with H : S_ISDIR P _ = false |- _ => rewrite H end.
    split; reflexivity.
Qed.

(** X17. The parent closes its descriptor of every file that it gives to a
    child, and of no other: when a run ends with an exit status other than
    1, there are as many closings as children, and the descriptors that
    were opened and not closed are those of the directories that were
    refused, one each. *)
Theorem descriptors_of_directories_stay_open cfg stdin status s :
  main cfg stdin = Exit status s -> status <> 1%Z ->
  count closing (trace s) = count forked (trace s) /\
  count descriptor (trace s)
    = count closing (trace s) + count directory (trace s).
Proof.
  unfold main. revert status s.
  assert (H : (fun o => forall status s, o = Exit status s ->
                 status <> 1%Z ->
                 count closing (trace s) = count forked (trace s) /\
                 count descriptor (trace s)
                   = count closing (trace s) + count directory (trace s))
              (main_loop cfg stdin initial)); [|exact H].
  apply (main_loop_rule cfg
    (fun s => count closing (trace s) = count forked (trace s) /\
              count descriptor (trace s)
                = count closing (trace s) + count directory (trace s))
    (fun _ s => count closing (trace s) = count forked (trace s) /\
              count descriptor (trace s)
                = count closing (trace s) + count directory (trace s))).
  - intros raw s (H1 & H2). simpl. rewrite !count_app.
    unfold count at 2 4 6 8 10. simpl. lia.
  - auto.
  - intros raw word s (H1 & H2) _.
    destruct (query_shape_of cfg (prepare cfg raw) word s)
      as (flagged & delta & Hshape & Hstate).
    destruct (query cfg (prepare cfg raw) word s) as [j s']. simpl in *.
    subst s'.
    assert (Hgo : j = NextWord \/ j = Break ->
              count closing (trace s ++ delta)
                = count forked (trace s ++ delta) /\
              count descriptor (trace s ++ delta)
                = count closing (trace s ++ delta)
                  + count directory (trace s ++ delta)).
    { intros Hj. rewrite !count_app.
      destruct (descriptor_account _ _ _ _ _ _ _ Hshape Hj) as [H3 H4].
      lia. }
    destruct j; simpl; auto.
    + intros status' s' Hx Hne. injection Hx as <- _.
      apply quit_shape in Hshape. contradiction.
    + discriminate.
  - intros s Hs status s' Hx _. injection Hx as _ <-. exact Hs.
  - intros e s _ status s' Hx Hne. injection Hx as <- _. congruence.
  - repeat split.
Qed.

End Query.

(** * The theorems at concrete inputs *)

(** C1: the claim fails. Between [a] and [c] there is an empty record, in
    line delimation and in null byte delimation: the empty path is never
    opened, two paths are opened for three records, and the exit status is
    0, not 2. *)
Lemma empty_token_not_dispatched :
  let by_line := main linux demo line_mode (lines ["a"; ""; "c"]) in
  let by_null := main linux demo null_mode
                   (mkFILE [x61; x00; x00; x63; x00] None) in
  (forall r, ~ In (Open [] r) (trace (final_state by_line))) /\
  (forall r, ~ In (Open [] r) (trace (final_state by_null))) /\
  opens (final_state by_line) = 2 /\
  opens (final_state by_null) = 2 /\
  (exists s, by_line = Exit 0 s) /\
  (exists s, by_null = Exit 0 s).
Proof.
  vm_compute. repeat split; eauto;
    intros r H; repeat (destruct H as [H|H]; [discriminate H|]);
    destruct H.
Qed.

Lemma empty_token_is_skipped_witness :
  read line_mode (lines [""; "c"]) = Line [x0a] (lines ["c"]) /\
  cstr (prepare line_mode [x0a]) = [] /\
  main_loop linux nothing_opens line_mode (lines [""; "c"]) initial =
  main_loop linux nothing_opens line_mode (lines ["c"])
    (log (Read [x0a]) initial).
Proof.
  assert (H1 : delimation line_mode <> ASCII_WHITESPACE_DELIMATION)
    by discriminate.
  assert (H2 : read line_mode (lines [""; "c"]) = Line [x0a] (lines ["c"]))
    by reflexivity.
  assert (H3 : cstr (prepare line_mode [x0a]) = []) by reflexivity.
  exact (conj H2 (conj H3
    (proj2 (empty_token_is_skipped linux nothing_opens line_mode
              (lines [""; "c"]) [x0a] (lines ["c"]) initial H1 H2 H3)))).
Defined.

Lemma blank_line_yields_no_token_witness :
  read word_mode (mkFILE [x20; x09; x0a; x61] None)
    = Line [x20; x09; x0a] (mkFILE [x61] None) /\
  token_loop linux demo word_mode (prepare word_mode [x20; x09; x0a])
    (prepare word_mode [x20; x09; x0a]) (log (Read [x20; x09; x0a]) initial)
    = (Break, log (Read [x20; x09; x0a]) initial) /\
  main_loop linux demo word_mode (mkFILE [x20; x09; x0a; x61] None) initial =
  main_loop linux demo word_mode (mkFILE [x61] None)
    (log (Read [x20; x09; x0a]) initial).
Proof.
  assert (H1 : delimation word_mode = ASCII_WHITESPACE_DELIMATION)
    by reflexivity.
  assert (H2 : read word_mode (mkFILE [x20; x09; x0a; x61] None)
               = Line [x20; x09; x0a] (mkFILE [x61] None)) by reflexivity.
  assert (H3 : Forall (fun c => isspace c = true) [x20; x09; x0a])
    by (repeat constructor).
  exact (conj H2
    (blank_line_yields_no_token linux demo word_mode
       (mkFILE [x20; x09; x0a; x61] None) [x20; x09; x0a]
       (mkFILE [x61] None) initial H1 H2 H3)).
Defined.

Lemma reaped_child_is_classified_witness :
  let before := [WaitPid 4991; WaitInherited 4991] in
  let s1 r := fold_left (fun s r => log (Wait r) s) (before ++ [r]) initial in
  Forall (still_running linux) before /\
  wait_loop linux line_mode [x61] [x61]
    (before ++ exited 3 :: [WaitPid 9]) initial
  = (Break, emit line_mode [x61] [x61] 3 (s1 (exited 3))) /\
  wait_loop linux line_mode [x61] [x61]
    (before ++ WaitPid 9 :: [exited 3]) initial
  = (Break, emit line_mode [x61] [x61] 137 (s1 (WaitPid 9))) /\
  wait_loop linux line_mode [x61] [x61]
    (before ++ WaitPid 4991 :: [exited 3]) initial
  = wait_loop linux line_mode [x61] [x61] [exited 3] (s1 (WaitPid 4991)).
Proof.
  intros before s1.
  assert (H1 : Forall (still_running linux) before)
    by (repeat constructor; exists 4991%Z; repeat split).
  pose proof (reaped_child_is_classified linux line_mode [x61] [x61] before
                (exited 3) 768 [WaitPid 9] initial H1 eq_refl)
    as (Hexit & _ & _ & _).
  pose proof (reaped_child_is_classified linux line_mode [x61] [x61] before
                (WaitPid 9) 9 [exited 3] initial H1 eq_refl)
    as (_ & Hsignal & _ & _).
  pose proof (reaped_child_is_classified linux line_mode [x61] [x61] before
                (WaitPid 4991) 4991 [exited 3] initial H1 eq_refl)
    as (_ & _ & Hgoes & _).
  exact (conj H1 (conj (Hexit eq_refl)
           (conj (Hsignal eq_refl eq_refl) (Hgoes eq_refl eq_refl)))).
Defined.

(** C8: the claim fails. The first [wait] is interrupted and the second
    would report a child that exited with 0: the program ends with exit
    status 1 after the first, and the record [b] is never processed. *)
Lemma interrupted_wait_is_fatal :
  sys_wait (interrupted 0 [x61]) = [WaitErr EINTR; exited 0] /\
  main linux interrupted line_mode (lines ["a"; "b"]) =
    Exit 1 {| non_fatal_errors := false;
              opens := 1;
              trace := [Read [x61; x0a]; Open [x61] (OpenFd 3);
                        Fstat (FstatOk 33188); Setenv [x61]; Fork;
                        ChildExec [bytes "cat"]; Close;
                        Wait (WaitErr EINTR);
                        Stderr (bytes "wait") EINTR] |}.
Proof. split; reflexivity. Qed.

Lemma wait_failure_is_fatal_witness :
  In (Wait (WaitErr EINTR))
     (trace (final_state
        (main linux interrupted line_mode (lines ["a"; "b"])))) /\
  exists s before,
    main linux interrupted line_mode (lines ["a"; "b"]) =
      Exit 1 {| non_fatal_errors := non_fatal_errors s;
                opens := opens s;
                trace := before ++ [Wait (WaitErr EINTR);
                                    Stderr (bytes "wait") EINTR] |} /\
    ~ In (Wait (WaitErr EINTR)) before.
Proof.
  assert (H : In (Wait (WaitErr EINTR))
                (trace (final_state
                   (main linux interrupted line_mode (lines ["a"; "b"])))))
    by (vm_compute; tauto).
  exact (conj H
    (wait_failure_is_fatal linux interrupted line_mode (lines ["a"; "b"])
       EINTR H)).
Defined.

Lemma fstat_failure_is_fatal_witness :
  In (Fstat (FstatErr EIO))
     (trace (final_state (main linux demo line_mode (lines ["bad"; "x"])))) /\
  exists s path fd,
    main linux demo line_mode (lines ["bad"; "x"]) =
      Exit 1 {| non_fatal_errors := non_fatal_errors s;
                opens := S (opens s);
                trace := trace s ++ [Open path (OpenFd fd);
                                     Fstat (FstatErr EIO);
                                     Stderr path EIO] |} /\
    sys_open (demo (opens s) path) = OpenFd fd /\
    sys_fstat (demo (opens s) path) = FstatErr EIO.
Proof.
  assert (H : In (Fstat (FstatErr EIO))
                (trace (final_state
                   (main linux demo line_mode (lines ["bad"; "x"])))))
    by (vm_compute; tauto).
  exact (conj H
    (fstat_failure_is_fatal linux demo line_mode (lines ["bad"; "x"]) EIO H)).
Defined.

Lemma exec_failure_is_fatal_witness :
  let stdin := lines ["a"; "b"; "c"] in
  In (ChildKill SIGUSR1_name)
     (trace (final_state (main linux no_such_command line_mode stdin))) /\
  main_loop linux no_such_command line_mode stdin initial =
    Exit 1 {| non_fatal_errors := false;
              opens := 1;
              trace := [Read [x61; x0a]; Open [x61] (OpenFd 3);
                        Fstat (FstatOk 33188); Setenv [x61]; Fork;
                        ChildStderr STDERR_FILENO (bytes "cat") ENOENT;
                        ChildKill SIGUSR1_name; Close] |} /\
  exists s path fd st_mode e at_,
    main linux no_such_command line_mode stdin =
      Exit 1 {| non_fatal_errors := non_fatal_errors s;
                opens := S (opens s);
                trace := trace s ++
                  [Open path (OpenFd fd); Fstat (FstatOk st_mode);
                   Setenv path] ++ launch_failure line_mode e at_ |} /\
    SIGUSR1_name = SIGUSR1_name /\
    sys_child (no_such_command (opens s) path) = ExecFails e at_ /\
    stdout_of (trace (final_state
                 (main linux no_such_command line_mode stdin)))
      = stdout_of (trace s).
Proof.
  intros stdin.
  assert (H1 : read line_mode stdin = Line [x61; x0a] (lines ["b"; "c"]))
    by reflexivity.
  assert (H2 : locate line_mode (prepare line_mode [x61; x0a])
               = Some [x61; x00]) by reflexivity.
  assert (H3 : In (ChildKill SIGUSR1_name)
                 (trace (final_state
                    (main linux no_such_command line_mode stdin))))
    by (vm_compute; tauto).
  pose proof (exec_failure_is_fatal linux no_such_command line_mode
                stdin initial [x61; x0a] (lines ["b"; "c"])
                [x61; x00] 3 33188 ENOENT DuringWait
                H1 H2 eq_refl eq_refl eq_refl eq_refl eq_refl eq_refl)
    as [Hfirst Hany].
  exact (conj H3 (conj Hfirst (Hany stdin SIGUSR1_name H3))).
Defined.



Lemma one_child_without_other_children_witness :
  let tr := trace (final_state
              (main linux demo line_mode (lines ["killed"; "a.txt"]))) in
  no_other_children demo /\
  tr = firstn 5 tr ++ skipn 5 tr /\
  hd_error (skipn 5 tr) = Some (ChildExec [bytes "cat"]) /\
  children linux (firstn 5 tr) <= 1 /\
  children linux (firstn 5 tr) = 1 /\
  spawned_since_open linux (firstn 5 tr) = 1.
Proof.
  intros tr.
  assert (H0 : no_other_children demo).
  { intros n path. unfold demo.
    repeat match goal with
           | |- context [bytes_eqb ?a ?b] => destruct (bytes_eqb a b)
           end; reflexivity. }
  assert (H1 : tr = firstn 5 tr ++ skipn 5 tr) by reflexivity.
  assert (H2 : hd_error (skipn 5 tr) = Some (ChildExec [bytes "cat"]))
    by reflexivity.
  pose proof (one_child_without_other_children linux demo line_mode
                (lines ["killed"; "a.txt"]) (firstn 5 tr) (skipn 5 tr) H0 H1)
    as [Hle Hat].
  refine (conj H0 (conj H1 (conj H2 (conj Hle _)))).
  change (skipn 5 tr) with
    (ChildExec [bytes "cat"] :: skipn 6 tr) in Hat.
  exact Hat.
Defined.

(** C9: the code breaks the claim.  The comment at lines 267-268 says that
    the parent waits on the child, but [wait(2)] at line 270 reports on any
    child of the process and [child_pid] is never compared with what it
    returns.  Here the process has a child of its own when the program is
    executed: its status is taken for that of the child forked for [a.txt],
    and [a.txt] is written on the strength of it.  The child forked for
    [b.txt] is then spawned while the one forked for [a.txt] exists, and the
    program ends with exit status 0 while that one has not been reaped. *)
Theorem another_child_is_taken_for_the_child :
  let run := main linux adopted line_mode (lines ["a.txt"; "b.txt"]) in
  let tr := trace (final_state run) in
  exit_status run = Some 0%Z /\
  stdout_of tr = bytes "a.txt" ++ [x0a] ++ bytes "b.txt" ++ [x0a] /\
  tr = firstn 13 tr ++ Fork :: skipn 14 tr /\
  nth_error tr 7 = Some (Wait (WaitInherited 0)) /\
  children linux (firstn 13 tr) = 1 /\
  children linux (firstn 14 tr) = 2 /\
  children linux tr = 1.
Proof. vm_compute. repeat split; reflexivity. Qed.

(** * The scenarios of the specification *)

(** Scenario A: [a.txt] is written, [b.txt] does not exist and is reported;
    the exit status is 2. *)
Example scenario_a :
  exists s,
    main linux demo line_mode (lines ["a.txt"; "b.txt"]) = Exit 2 s /\
    stdout_of (trace s) = bytes "a.txt" ++ [x0a] /\
    filter (fun e => match e with Stderr _ _ => true | _ => false end)
      (trace s) = [Stderr (bytes "b.txt") ENOENT].
Proof.
  exists (final_state (main linux demo line_mode (lines ["a.txt"; "b.txt"]))).
  repeat split; vm_compute; reflexivity.
Qed.

(** Scenario C: in null byte delimation the output is the input. *)
Example scenario_c :
  exists s,
    main linux demo null_mode (mkFILE [x78; x00; x79; x00] None) = Exit 0 s /\
    stdout_of (trace s) = [x78; x00; x79; x00].
Proof.
  exists (final_state
            (main linux demo null_mode (mkFILE [x78; x00; x79; x00] None))).
  repeat split; vm_compute; reflexivity.
Qed.

(** Scenario D: the command cannot be executed. *)
Example scenario_d :
  exists s,
    main linux no_such_command line_mode (lines ["a"; "b"; "c"]) = Exit 1 s /\
    stdout_of (trace s) = [] /\
    In (ChildStderr STDERR_FILENO (bytes "cat") ENOENT) (trace s).
Proof.
  exists (final_state
            (main linux no_such_command line_mode (lines ["a"; "b"; "c"]))).
  repeat split; vm_compute; tauto.
Qed.

(** The records of a run and of the run with the other polarity. *)
Example polarity :
  verdicts linux
    (trace (final_state
       (main linux demo line_mode (lines ["a.txt"; "odd"; "b.txt"; "killed"]))))
  = [mkVerdict (bytes "a.txt") 0 true; mkVerdict (bytes "odd") 1 false;
     mkVerdict (bytes "killed") 137 false] /\
  verdicts linux
    (trace (final_state
       (main linux demo (with_display false line_mode)
          (lines ["a.txt"; "odd"; "b.txt"; "killed"]))))
  = [mkVerdict (bytes "a.txt") 0 false; mkVerdict (bytes "odd") 1 true;
     mkVerdict (bytes "killed") 137 true].
Proof. split; reflexivity. Qed.

(** * The further theorems at concrete inputs *)

Lemma input_is_read_in_order_witness :
  let stdin := lines ["a.txt"; "b.txt"] in
  main linux demo line_mode stdin
    = Exit 2 (final_state (main linux demo line_mode stdin)) /\
  reads (trace (final_state (main linux demo line_mode stdin)))
    = pending stdin.
Proof.
  intros stdin.
  assert (H1 : main linux demo line_mode stdin
               = Exit 2 (final_state (main linux demo line_mode stdin)))
    by (vm_compute; reflexivity).
  assert (H2 : 2%Z <> 1%Z) by discriminate.
  exact (conj H1
    (proj2 (input_is_read_in_order linux demo line_mode stdin) 2%Z _ H1 H2)).
Defined.

Lemma read_error_is_fatal_witness :
  let stdin := mkFILE (bytes "a.txt" ++ [x0a]) (Some EIO) in
  failure stdin = Some EIO /\
  main linux demo line_mode stdin
    = Exit 1 (final_state (main linux demo line_mode stdin)) /\
  1%Z = 1%Z.
Proof.
  intros stdin.
  assert (H1 : failure stdin = Some EIO) by reflexivity.
  assert (H2 : main linux demo line_mode stdin
               = Exit 1 (final_state (main linux demo line_mode stdin)))
    by (vm_compute; reflexivity).
  exact (conj H1 (conj H2
    (read_error_is_fatal linux demo line_mode stdin EIO 1%Z _ H1 H2))).
Defined.



Lemma opened_paths_are_well_formed_witness :
  let stdin := mkFILE (bytes "  a.txt   b.txt" ++ [x0a; x0a]) None in
  In (bytes "b.txt")
     (opened (trace (final_state (main linux demo word_mode stdin)))) /\
  bytes "b.txt" <> [] /\ Forall (path_byte word_mode) (bytes "b.txt").
Proof.
  intros stdin.
  assert (H : In (bytes "b.txt")
                (opened (trace (final_state
                   (main linux demo word_mode stdin)))))
    by (vm_compute; tauto).
  exact (conj H
    (opened_paths_are_well_formed linux demo word_mode stdin
       (bytes "b.txt") H)).
Defined.

Lemma opened_paths_are_the_tokens_witness :
  let stdin := mkFILE (bytes " a.txt  odd" ++ [x0a; x20; x0a]
                       ++ bytes "b.txt x") None in
  main linux demo word_mode stdin
    = Exit 2 (final_state (main linux demo word_mode stdin)) /\
  opened (trace (final_state (main linux demo word_mode stdin)))
    = [bytes "a.txt"; bytes "odd"; bytes "b.txt"; bytes "x"] /\
  opened (trace (final_state (main linux demo word_mode stdin)))
    = all_tokens word_mode (pending stdin).
Proof.
  intros stdin.
  assert (H1 : main linux demo word_mode stdin
               = Exit 2 (final_state (main linux demo word_mode stdin)))
    by (vm_compute; reflexivity).
  assert (H2 : 2%Z <> 1%Z) by discriminate.
  assert (H3 : opened (trace (final_state (main linux demo word_mode stdin)))
               = [bytes "a.txt"; bytes "odd"; bytes "b.txt"; bytes "x"])
    by (vm_compute; reflexivity).
  exact (conj H1 (conj H3
    (proj2 (opened_paths_are_the_tokens linux demo word_mode stdin)
       2%Z _ H1 H2))).
Defined.

Lemma command_is_launched_on_the_token_witness :
  let tr := trace (final_state
              (main linux demo line_mode (lines ["b.txt"; "a.txt"]))) in
  tr = firstn 8 tr ++ ChildExec [bytes "cat"] :: skipn 9 tr /\
  [bytes "cat"] = command line_mode /\
  exists before path fd st_mode,
    firstn 8 tr = before ++ [Open path (OpenFd fd); Fstat (FstatOk st_mode);
                             Setenv path; Fork] /\
    S_ISDIR linux st_mode = false.
Proof.
  intros tr.
  assert (H : tr = firstn 8 tr ++ ChildExec [bytes "cat"] :: skipn 9 tr)
    by (vm_compute; reflexivity).
  exact (conj H
    (command_is_launched_on_the_token linux demo line_mode
       (lines ["b.txt"; "a.txt"]) (firstn 8 tr) [bytes "cat"] (skipn 9 tr)
       H)).
Defined.

Lemma setup_starts_iff_witness :
  setup (bytes "query") (bytes "0ns!w") [bytes "!"; bytes "sh"; bytes "!"]
    None None
  = @Started config {| delimation := ASCII_WHITESPACE_DELIMATION;
               display_on_success := false;
               redirect_stderr := true;
               command := [bytes "sh"; bytes "!"] |}.
Proof.
  apply (proj2 (setup_starts_iff (bytes "query") (bytes "0ns!w")
                  [bytes "!"; bytes "sh"; bytes "!"] None None _)).
  repeat split; discriminate.
Defined.

Lemma first_other_option_decides_witness :
  program linux demo (bytes "query") (bytes "0w" ++ x68 :: bytes "?+") []
    (Some ENOENT) None (lines ["a.txt"])
  = @Stopped outcome 0 (usage (bytes "query")) [].
Proof.
  exact (first_other_option_decides linux demo (bytes "query") (bytes "0w")
           x68 (bytes "?+") [] (Some ENOENT) None (lines ["a.txt"])
           eq_refl eq_refl).
Defined.

Lemma bang_is_the_option_witness :
  program linux demo (bytes "query") (bytes "0") [bytes "!"; bytes "true"]
    None None (mkFILE [x78; x00] None)
  = program linux demo (bytes "query") (bytes "0!") [bytes "true"]
      None None (mkFILE [x78; x00] None).
Proof.
  exact (bang_is_the_option linux demo (bytes "query") (bytes "0")
           [bytes "true"] None None (mkFILE [x78; x00] None)
           eq_refl eq_refl).
Defined.

Lemma every_token_is_accounted_for_witness :
  let o := main linux demo line_mode
             (lines ["a.txt"; "b.txt"; "dir"; "odd"; ""; "killed"]) in
  no_other_children demo /\
  o = Exit 2 (final_state o) /\
  children linux (trace (final_state o)) = 0 /\
  count forked (trace (final_state o))
    = length (verdicts linux (trace (final_state o))) /\
  length (opened (trace (final_state o)))
    = count (refusing linux) (trace (final_state o))
      + length (verdicts linux (trace (final_state o))).
Proof.
  intros o.
  assert (H0 : no_other_children demo).
  { intros n path. unfold demo.
    repeat match goal with
           | |- context [bytes_eqb ?a ?b] => destruct (bytes_eqb a b)
           end; reflexivity. }
  assert (H1 : o = Exit 2 (final_state o)) by (vm_compute; reflexivity).
  assert (H2 : 2%Z <> 1%Z) by discriminate.
  exact (conj H0 (conj H1
    (every_token_is_accounted_for linux demo line_mode
       (lines ["a.txt"; "b.txt"; "dir"; "odd"; ""; "killed"]) 2%Z _
       H0 H1 H2))).
Defined.

Lemma diagnostics_name_the_token_witness :
  let stdin := lines ["a"; "b"] in
  let tr := trace (final_state (main linux starved line_mode stdin)) in
  tr = firstn 3 tr ++ Stderr (bytes "setenv") ENOMEM :: skipn 4 tr /\
  last (firstn 3 tr) (Read []) = Fstat (FstatOk 33188) /\
  explained linux starved line_mode stdin (firstn 3 tr) (bytes "setenv")
    ENOMEM.
Proof.
  intros stdin tr.
  assert (H : tr = firstn 3 tr ++ Stderr (bytes "setenv") ENOMEM
                   :: skipn 4 tr) by (vm_compute; reflexivity).
  assert (H1 : last (firstn 3 tr) (Read []) = Fstat (FstatOk 33188))
    by (vm_compute; reflexivity).
  exact (conj H (conj H1
    (diagnostics_name_the_token linux starved line_mode stdin
       (firstn 3 tr) (bytes "setenv") ENOMEM (skipn 4 tr) H))).
Defined.

Lemma output_is_a_selection_witness :
  let stdin := lines ["a.txt"; "odd"; "dir"; "c.txt"] in
  let run := main linux demo line_mode stdin in
  let policy : buffering := fun _ buffer => Nat.div2 (length buffer) in
  children_replace_stdout demo /\
  run = Exit 2 (final_state run) /\
  descriptor_output policy (Exit 2 (final_state run))
    = concat (emitted (trace (final_state run))).
Proof.
  intros stdin run policy.
  assert (H0 : children_replace_stdout demo).
  { intros n path call e. unfold demo.
    repeat match goal with
           | |- context [bytes_eqb ?a ?b] => destruct (bytes_eqb a b)
           end; discriminate. }
  assert (H1 : run = Exit 2 (final_state run)) by (vm_compute; reflexivity).
  exact (conj H0 (conj H1
    (proj2 (output_is_a_selection linux demo line_mode stdin) H0 policy 2%Z
       (final_state run) H1))).
Defined.

(** The first [dup2] fails in the child forked for [b], while [a], which the
    parent has written, is still buffered: the child writes it, and the
    parent writes it again when the program ends. *)
Example duplicated_output :
  let run := main linux crowded line_mode (lines ["a"; "b"; "c"]) in
  emitted (trace (final_state run)) = [bytes "a" ++ [x0a]; bytes "c" ++ [x0a]]
  /\ descriptor_output fully_buffered run
     = bytes "a" ++ [x0a] ++ bytes "a" ++ [x0a] ++ bytes "c" ++ [x0a].
Proof. vm_compute. split; reflexivity. Qed.


Lemma every_token_is_written_witness :
  let stdin := mkFILE ([x78; x00; x00] ++ bytes "y z" ++ [x00; x77]) None in
  (forall n path, succeeds linux (obliging n path)) /\
  exists s,
    main linux obliging null_mode stdin = Exit 0 s /\
    emitted (trace s) =
      if display_on_success null_mode
      then all_written null_mode (pending stdin) else [].
Proof.
  intros stdin.
  assert (H1 : forall n path, succeeds linux (obliging n path)).
  { intros n path. exists 3%Z, 33188%Z, 0%Z, []. repeat split. }
  assert (H2 : failure stdin = None) by reflexivity.
  exact (conj H1
    (every_token_is_written linux obliging null_mode stdin H1 H2)).
Defined.

(** In null byte delimation, with a command that always succeeds, the output
    is the input without its empty records. *)
Example identity_filter :
  let stdin := mkFILE ([x78; x00; x00] ++ bytes "y z" ++ [x00; x77]) None in
  stdout_of (trace (final_state (main linux obliging null_mode stdin)))
  = [x78; x00] ++ bytes "y z" ++ [x00; x77].
Proof. vm_compute. reflexivity. Qed.

Lemma descriptors_of_directories_stay_open_witness :
  let o := main linux demo line_mode
             (lines ["dir"; "a.txt"; "b.txt"; "dir"; "odd"]) in
  o = Exit 2 (final_state o) /\
  count (directory linux) (trace (final_state o)) = 2 /\
  count closing (trace (final_state o))
    = count forked (trace (final_state o)) /\
  count (descriptor) (trace (final_state o))
    = count closing (trace (final_state o))
      + count (directory linux) (trace (final_state o)).
Proof.
  intros o.
  assert (H1 : o = Exit 2 (final_state o)) by (vm_compute; reflexivity).
  assert (H2 : 2%Z <> 1%Z) by discriminate.
  assert (H3 : count (directory linux) (trace (final_state o)) = 2)
    by (vm_compute; reflexivity).
  exact (conj H1 (conj H3
    (descriptors_of_directories_stay_open linux demo line_mode
       (lines ["dir"; "a.txt"; "b.txt"; "dir"; "odd"]) 2%Z _ H1 H2))).
Defined.
